(** * juris-ai-guard: the document-processor and RAG edge functions

    A shallow embedding of
      - supabase/functions/document-processor/index.ts  (KMSService and the
        request handler),
      - the RAG handler and its AI provider factory,
      - the upload flow and the route guard of the web client, and
      - the SQL functions and policies on profiles and conversations,
    together with the tables of the migrations that they work on.

    JavaScript strings are sequences of UTF-16 code units, byte arrays are
    lists of [byte]; the Web platform services the code only calls
    (the random source, AES-GCM, JSON) are an interface, [WebPlatform]. *)

From Stdlib Require Import String Ascii.
From Stdlib Require Import Strings.Byte.
From Stdlib Require Import List NArith ZArith Lia Bool.
Import ListNotations.

(** ** JavaScript built-ins used by the sources *)
Module JS.

Local Open Scope N_scope.

(** A JavaScript string: its UTF-16 code units. *)
Definition jsstring := list N.

(** An ASCII literal of the source as a JavaScript string. *)
Definition js (s : string) : jsstring :=
  map N_of_ascii (list_ascii_of_string s).

Fixpoint jseqb (a b : jsstring) : bool :=
  match a, b with
  | [], [] => true
  | x :: a', y :: b' => (x =? y) && jseqb a' b'
  | _, _ => false
  end.

(** A thrown value: the [name] and [message] of an Error or DOMException. *)
Record exn := { exn_name : string; exn_message : jsstring }.

Definition Error (message : jsstring) : exn :=
  {| exn_name := "Error"; exn_message := message |}.

(** The outcome of a call that returns or throws. *)
Inductive result (A : Type) : Type :=
| Ok (a : A)
| Throw (e : exn).
Arguments Ok {A} a.
Arguments Throw {A} e.

Definition bind {A B} (r : result A) (k : A -> result B) : result B :=
  match r with
  | Ok a => k a
  | Throw e => Throw e
  end.

(** [Uint8Array] element from a number already reduced to a byte. *)
Definition byte_of_N (n : N) : byte :=
  match Byte.of_N n with
  | Some b => b
  | None => x00
  end.

(** *** String.prototype.padStart / padEnd / slice *)

(** The filler of [padStart]/[padEnd]: [padString] repeated and truncated
    to [n] code units (empty when [padString] is empty). *)
Definition pad_fill (n : nat) (padString : jsstring) : jsstring :=
  firstn n (concat (repeat padString n)).

Definition padStart (targetLength : nat) (padString s : jsstring) : jsstring :=
  if (length s <? targetLength)%nat
  then pad_fill (targetLength - length s) padString ++ s
  else s.

Definition padEnd (targetLength : nat) (padString s : jsstring) : jsstring :=
  if (length s <? targetLength)%nat
  then s ++ pad_fill (targetLength - length s) padString
  else s.

(** A relative index of [slice]: negative counts from the end, and the
    result is clamped to [0 .. len]. *)
Definition rel_index (len : nat) (k : Z) : nat :=
  if (k <? 0)%Z then Z.to_nat (Z.max (Z.of_nat len + k) 0)
  else Nat.min (Z.to_nat k) len.

(** [l.slice(start, end)] for strings and typed arrays; [end_ = None] is
    the one-argument form. *)
Definition slice {A} (l : list A) (start : Z) (end_ : option Z) : list A :=
  let len := length l in
  let from := rel_index len start in
  let upto := match end_ with
              | None => len
              | Some e => rel_index len e
              end in
  firstn (upto - from) (skipn from l).

(** [s.substr(i, n)]. *)
Definition substr (s : jsstring) (i n : nat) : jsstring :=
  firstn n (skipn i s).

(** *** Number.prototype.toString(16) and parseInt(_, 16) *)

(** The digit character of a value below 16: '0'..'9', 'a'..'f'. *)
Definition hex_digit (d : N) : N :=
  if d <? 10 then 48 + d else 87 + d.

Fixpoint digits16 (fuel : nat) (n : N) (acc : jsstring) : jsstring :=
  match fuel with
  | O => acc
  | S f =>
      let acc' := hex_digit (n mod 16) :: acc in
      if n / 16 =? 0 then acc' else digits16 f (n / 16) acc'
  end.

(** [n.toString(16)] for a non-negative integer. *)
Definition toString16 (n : N) : jsstring :=
  digits16 (S (N.to_nat (N.log2 n))) n [].

Fixpoint digits10 (fuel : nat) (n : N) (acc : jsstring) : jsstring :=
  match fuel with
  | O => acc
  | S f =>
      let acc' := (48 + n mod 10) :: acc in
      if n / 10 =? 0 then acc' else digits10 f (n / 10) acc'
  end.

(** A non-negative integer inside a template literal: its decimal digits. *)
Definition toString10 (n : N) : jsstring :=
  digits10 (S (N.to_nat (N.log2 n))) n [].

(** The value of a radix-16 digit, if the code unit is one. *)
Definition hex_value (c : N) : option N :=
  if (48 <=? c) && (c <=? 57) then Some (c - 48)
  else if (97 <=? c) && (c <=? 102) then Some (c - 87)
  else if (65 <=? c) && (c <=? 70) then Some (c - 55)
  else None.

(** White space and line terminators that [parseInt] skips. *)
Definition is_whitespace (c : N) : bool :=
  ((9 <=? c) && (c <=? 13)) || (c =? 32) || (c =? 160) || (c =? 5760)
  || ((8192 <=? c) && (c <=? 8202)) || (c =? 8232) || (c =? 8233)
  || (c =? 8239) || (c =? 8287) || (c =? 12288) || (c =? 65279).

Fixpoint skip_whitespace (s : jsstring) : jsstring :=
  match s with
  | c :: r => if is_whitespace c then skip_whitespace r else s
  | [] => []
  end.

(** The longest prefix of radix-16 digits, folded into a number;
    [None] when there is no digit at all. *)
Fixpoint hex_prefix (s : jsstring) (acc : option N) : option N :=
  match s with
  | c :: r =>
      match hex_value c with
      | Some d =>
          hex_prefix r (Some (match acc with
                              | Some a => 16 * a + d
                              | None => d
                              end))
      | None => acc
      end
  | [] => acc
  end.

Definition strip_0x (s : jsstring) : jsstring :=
  match s with
  | 48 :: x :: r => if (x =? 120) || (x =? 88) then r else s
  | _ => s
  end.

(** [parseInt(s, 16)]; [None] is NaN. *)
Definition parseInt16 (s : jsstring) : option Z :=
  let s1 := skip_whitespace s in
  let '(negative, s2) :=
    match s1 with
    | 45 :: r => (true, r)
    | 43 :: r => (false, r)
    | _ => (false, s1)
    end in
  match hex_prefix (strip_0x s2) None with
  | Some v => Some (if negative then (- Z.of_N v)%Z else Z.of_N v)
  | None => None
  end.

(** Storing a number into a [Uint8Array] slot: NaN becomes 0, an integer
    is taken modulo 256. *)
Definition toUint8 (v : option Z) : byte :=
  match v with
  | Some z => byte_of_N (Z.to_N (z mod 256)%Z)
  | None => x00
  end.

(** *** TextEncoder / TextDecoder (UTF-8) *)

Definition is_high_surrogate (c : N) : bool := (55296 <=? c) && (c <=? 56319).
Definition is_low_surrogate (c : N) : bool := (56320 <=? c) && (c <=? 57343).

(** U+FFFD in UTF-8. *)
Definition replacement_utf8 : list byte := [xef; xbf; xbd].

Definition utf8_of_code_point (cp : N) : list byte :=
  if cp <? 128 then [byte_of_N cp]
  else if cp <? 2048 then
    [byte_of_N (192 + cp / 64); byte_of_N (128 + cp mod 64)]
  else if cp <? 65536 then
    [byte_of_N (224 + cp / 4096); byte_of_N (128 + (cp / 64) mod 64);
     byte_of_N (128 + cp mod 64)]
  else
    [byte_of_N (240 + cp / 262144); byte_of_N (128 + (cp / 4096) mod 64);
     byte_of_N (128 + (cp / 64) mod 64); byte_of_N (128 + cp mod 64)].

(** [new TextEncoder().encode(s)]: a surrogate pair is one code point, a
    lone surrogate is replaced by U+FFFD. *)
Fixpoint utf8_encode (s : jsstring) : list byte :=
  match s with
  | [] => []
  | c :: rest =>
      if is_high_surrogate c then
        match rest with
        | d :: rest' =>
            if is_low_surrogate d
            then utf8_of_code_point (65536 + (c - 55296) * 1024 + (d - 56320))
                   ++ utf8_encode rest'
            else replacement_utf8 ++ utf8_encode rest
        | [] => replacement_utf8
        end
      else if is_low_surrogate c then replacement_utf8 ++ utf8_encode rest
      else utf8_of_code_point c ++ utf8_encode rest
  end.

(** The code units of a decoded code point. *)
Definition utf16_of_code_point (cp : N) : jsstring :=
  if cp <? 65536 then [cp]
  else [55296 + (cp - 65536) / 1024; 56320 + (cp - 65536) mod 1024].

(** The state of the UTF-8 decoder of the Encoding standard. *)
Record utf8_state := {
  u_code_point : N;
  u_needed : nat;
  u_lower : N;
  u_upper : N }.

Definition utf8_start : utf8_state :=
  {| u_code_point := 0; u_needed := 0; u_lower := 128; u_upper := 191 |}.

(** A byte read with no sequence pending. *)
Definition utf8_lead (b : N) : utf8_state * jsstring :=
  if b <? 128 then (utf8_start, [b])
  else if (194 <=? b) && (b <=? 223) then
    ({| u_code_point := N.land b 31; u_needed := 1;
        u_lower := 128; u_upper := 191 |}, [])
  else if (224 <=? b) && (b <=? 239) then
    ({| u_code_point := N.land b 15; u_needed := 2;
        u_lower := if b =? 224 then 160 else 128;
        u_upper := if b =? 237 then 159 else 191 |}, [])
  else if (240 <=? b) && (b <=? 244) then
    ({| u_code_point := N.land b 7; u_needed := 3;
        u_lower := if b =? 240 then 144 else 128;
        u_upper := if b =? 244 then 143 else 191 |}, [])
  else (utf8_start, [65533]).

Definition utf8_step (st : utf8_state) (b : N) : utf8_state * jsstring :=
  match u_needed st with
  | O => utf8_lead b
  | S n =>
      if (u_lower st <=? b) && (b <=? u_upper st) then
        let cp := N.lor (N.shiftl (u_code_point st) 6) (N.land b 63) in
        match n with
        | O => (utf8_start, utf16_of_code_point cp)
        | S _ => ({| u_code_point := cp; u_needed := n;
                     u_lower := 128; u_upper := 191 |}, [])
        end
      else
        (* the sequence is cut short: U+FFFD, and the byte is read again *)
        let '(st', out) := utf8_lead b in (st', 65533 :: out)
  end.

Fixpoint utf8_run (st : utf8_state) (bs : list byte) : jsstring :=
  match bs with
  | [] => match u_needed st with O => [] | S _ => [65533] end
  | b :: r =>
      let '(st', out) := utf8_step st (Byte.to_N b) in
      out ++ utf8_run st' r
  end.

(** [new TextDecoder().decode(bytes)]: UTF-8, not fatal, a leading byte
    order mark is dropped. *)
Definition utf8_decode (bs : list byte) : jsstring :=
  match bs with
  | xef :: xbb :: xbf :: r => utf8_run utf8_start r
  | _ => utf8_run utf8_start bs
  end.

(** *** String.prototype.toLowerCase

    The letters 'A'..'Z' are mapped to 'a'..'z'.  Code units outside ASCII
    are left as they are: the Unicode mapping sends none of them to a single
    letter of "openai" or "gemini", which is all the sources compare the
    result with. *)
Definition lower_unit (c : N) : N :=
  if (65 <=? c) && (c <=? 90) then c + 32 else c.

Definition toLowerCase (s : jsstring) : jsstring := map lower_unit s.

(** *** JSON values *)
#[local] Unset Elimination Schemes.
Inductive json :=
| JNull
| JBool (b : bool)
| JNumber (z : Z)
| JString (s : jsstring)
| JArray (items : list json)
| JObject (members : list (jsstring * json)).
#[local] Set Elimination Schemes.

(** Property access [v.key]; [None] is [undefined]. *)
Fixpoint member (key : jsstring) (members : list (jsstring * json)) : option json :=
  match members with
  | [] => None
  | (k, v) :: r => if jseqb k key then Some v else member key r
  end.

Definition get_property (v : json) (key : jsstring) : option json :=
  match v with
  | JObject members => member key members
  | _ => None
  end.

(** *** Character classes used in the statements *)

(** A lowercase hexadecimal digit: '0'..'9' or 'a'..'f'. *)
Definition is_lower_hex (c : N) : bool :=
  ((48 <=? c) && (c <=? 57)) || ((97 <=? c) && (c <=? 102)).

Definition is_ascii (c : N) : bool := c <? 128.

End JS.

(** ** KMSService (document-processor/index.ts, lines 15-120) *)
Module KMS.
Import JS.

(** What the first two lines of [hexToUint8Array] make of a [length] that
    is not a string's own: [new Uint8Array(length / 2)] throws a
    RangeError, or it gives an array and the test [0 < length] decides
    whether the loop body runs. *)
Inductive length_outcome :=
| LoopSkipped
| LoopEntered
| AllocationRefused.

(** The services of the runtime that KMSService calls: the random source
    behind [crypto.getRandomValues], AES-GCM behind [crypto.subtle], and
    JSON.  [aes_gcm_encrypt key iv plaintext] is the ciphertext followed by
    the tag; [aes_gcm_decrypt] is [None] when authentication fails;
    [JSON_parse] is [None] on a syntax error.  [own_length v] is the
    [length_outcome] for the value [v] of an object's own [length] member,
    as [ToNumber] and the largest array the runtime allocates decide it. *)
Class WebPlatform := {
  Rng : Type;
  getRandomValues : nat -> Rng -> result (list byte * Rng);
  aes_gcm_encrypt : list byte -> list byte -> list byte -> list byte;
  aes_gcm_decrypt : list byte -> list byte -> list byte -> option (list byte);
  JSON_stringify : json -> jsstring;
  JSON_parse : jsstring -> option json;
  own_length : json -> length_outcome }.

(** The object literal [{ encrypted, iv }] that [encryptDEK] serializes. *)
Definition wrapped_object (encrypted iv : jsstring) : json :=
  JObject [(js "encrypted", JString encrypted); (js "iv", JString iv)].

(** What the code relies on: [getRandomValues] fills the whole array, the
    AES-GCM tag is 128 bits and decryption inverts encryption under the same
    key and nonce, and [JSON.parse] reads back what [JSON.stringify] wrote. *)
Class WebPlatformLaws (P : WebPlatform) : Prop := {
  getRandomValues_length :
    forall n rng bytes rng',
      getRandomValues n rng = Ok (bytes, rng') -> length bytes = n;
  aes_gcm_encrypt_length :
    forall key iv data,
      length (aes_gcm_encrypt key iv data) = length data + 16;
  aes_gcm_decrypt_encrypt :
    forall key iv data,
      aes_gcm_decrypt key iv (aes_gcm_encrypt key iv data) = Some data;
  JSON_parse_stringify :
    forall encrypted iv,
      JSON_parse (JSON_stringify (wrapped_object encrypted iv))
      = Some (wrapped_object encrypted iv) }.

Declare Scope js_scope.
Delimit Scope js_scope with js.
Notation "x <- c ;; k" := (bind c (fun x => k))
  (at level 61, c at next level, right associativity) : js_scope.
Notation "' p <- c ;; k" := (bind c (fun p => k))
  (at level 61, p pattern, c at next level, right associativity) : js_scope.
Local Open Scope js_scope.

Inductive key_usage := UsageEncrypt | UsageDecrypt.

Record CryptoKey := { key_data : list byte; key_usage_of : key_usage }.

Definition DataError : exn :=
  {| exn_name := "DataError"; exn_message := js "Invalid key length" |}.
Definition InvalidAccessError : exn :=
  {| exn_name := "InvalidAccessError";
     exn_message := js "The key does not support the operation" |}.
Definition OperationError : exn :=
  {| exn_name := "OperationError"; exn_message := js "Decryption failed" |}.
Definition SyntaxError : exn :=
  {| exn_name := "SyntaxError"; exn_message := js "Unexpected token in JSON" |}.
Definition TypeError : exn :=
  {| exn_name := "TypeError";
     exn_message := js "Cannot read properties of undefined" |}.
Definition NotAFunction : exn :=
  {| exn_name := "TypeError"; exn_message := js "hex.substr is not a function" |}.
Definition RangeError : exn :=
  {| exn_name := "RangeError"; exn_message := js "Invalid typed array length" |}.

(** [crypto.subtle.importKey('raw', raw, { name: 'AES-GCM' }, false, [usage])]:
    an AES key is 128, 192 or 256 bits. *)
Definition importKey (raw : list byte) (usage : key_usage) : result CryptoKey :=
  let n := length raw in
  if (n =? 16)%nat || (n =? 24)%nat || (n =? 32)%nat
  then Ok {| key_data := raw; key_usage_of := usage |}
  else Throw DataError.

Section Service.
Context {P : WebPlatform}.

(** [crypto.subtle.encrypt({ name: 'AES-GCM', iv }, key, data)]. *)
Definition subtle_encrypt (iv : list byte) (key : CryptoKey) (data : list byte)
  : result (list byte) :=
  match key_usage_of key with
  | UsageEncrypt => Ok (aes_gcm_encrypt (key_data key) iv data)
  | UsageDecrypt => Throw InvalidAccessError
  end.

(** [crypto.subtle.decrypt({ name: 'AES-GCM', iv }, key, data)]. *)
Definition subtle_decrypt (iv : list byte) (key : CryptoKey) (data : list byte)
  : result (list byte) :=
  match key_usage_of key with
  | UsageDecrypt =>
      match aes_gcm_decrypt (key_data key) iv data with
      | Some plaintext => Ok plaintext
      | None => Throw OperationError
      end
  | UsageEncrypt => Throw InvalidAccessError
  end.

Record KMSService := { masterKey : jsstring }.

(** [Deno.env.get('MASTER_ENCRYPTION_KEY') || 'default-key-for-dev']:
    an unset or empty variable gives the default. *)
Definition constructor (MASTER_ENCRYPTION_KEY : option jsstring) : KMSService :=
  {| masterKey := match MASTER_ENCRYPTION_KEY with
                  | Some (c :: r) => c :: r
                  | _ => js "default-key-for-dev"
                  end |}.

(** [b.toString(16).padStart(2, '0')] for one element of the array. *)
Definition byteToHex (b : byte) : jsstring :=
  padStart 2 (js "0") (toString16 (Byte.to_N b)).

Definition uint8ArrayToHex (bytes : list byte) : jsstring :=
  concat (map byteToHex bytes).

(** The arguments [hex.substr(i, 2)] of the loop, for i = 0, 2, 4, ... *)
Fixpoint hex_chunks (hex : jsstring) : list jsstring :=
  match hex with
  | [] => []
  | [c] => [[c]]
  | c1 :: c2 :: rest => [c1; c2] :: hex_chunks rest
  end.

(** The array has [hex.length / 2] slots (the length is truncated); a
    write past the end, which an odd length causes, is dropped. *)
Definition hexToUint8Array (hex : jsstring) : list byte :=
  firstn (length hex / 2)
         (map (fun chunk => toUint8 (parseInt16 chunk)) (hex_chunks hex)).

(** The secret as [importKey] receives it:
    [encoder.encode(this.masterKey.padEnd(32, '0').slice(0, 32))]. *)
Definition master_key_bytes (kms : KMSService) : list byte :=
  utf8_encode (slice (padEnd 32 (js "0") (masterKey kms)) 0 (Some 32%Z)).

Definition generateDEK (rng : Rng) : result (jsstring * Rng) :=
  '(dek, rng') <- getRandomValues 32 rng ;;
  Ok (uint8ArrayToHex dek, rng').

Definition encryptDEK (kms : KMSService) (dek : jsstring) (rng : Rng)
  : result (jsstring * Rng) :=
  let dekBytes := utf8_encode dek in
  key <- importKey (master_key_bytes kms) UsageEncrypt ;;
  '(iv, rng') <- getRandomValues 12 rng ;;
  encrypted <- subtle_encrypt iv key dekBytes ;;
  Ok (JSON_stringify
        (wrapped_object (uint8ArrayToHex encrypted) (uint8ArrayToHex iv)),
      rng').

(** [this.hexToUint8Array(v)] for whatever the destructuring gave: the
    parameter type [string] is gone at run time.  [undefined] and [null]
    have no [length].  A number, a boolean and an object without a
    [length] have the [length] [undefined]: the array has NaN, that is 0,
    slots and the loop is not entered.  An array has its own [length]:
    empty it passes like them, otherwise the loop calls [hex.substr],
    which is no function; for an object with a [length] of its own the
    runtime decides the same question. *)
Definition hexToUint8Array_of (v : option json) : result (list byte) :=
  match v with
  | None | Some JNull => Throw TypeError
  | Some (JString hex) => Ok (hexToUint8Array hex)
  | Some (JBool _) | Some (JNumber _) => Ok []
  | Some (JArray []) => Ok []
  | Some (JArray (_ :: _)) => Throw NotAFunction
  | Some (JObject members) =>
      match member (js "length") members with
      | None => Ok []
      | Some len =>
          match own_length len with
          | LoopSkipped => Ok []
          | LoopEntered => Throw NotAFunction
          | AllocationRefused => Throw RangeError
          end
      end
  end.

(** The destructuring [{ encrypted, iv } = JSON.parse(...)] throws on
    [null] and gives [undefined] for what the value does not have; the
    arguments of [crypto.subtle.decrypt] are evaluated from left to
    right, after [importKey]. *)
Definition decryptDEK (kms : KMSService) (encryptedDEK : jsstring)
  : result jsstring :=
  parsed <- match JSON_parse encryptedDEK with
            | Some (JNull) => Throw TypeError
            | Some v => Ok v
            | None => Throw SyntaxError
            end ;;
  key <- importKey (master_key_bytes kms) UsageDecrypt ;;
  iv <- hexToUint8Array_of (get_property parsed (js "iv")) ;;
  encrypted <- hexToUint8Array_of (get_property parsed (js "encrypted")) ;;
  decrypted <- subtle_decrypt iv key encrypted ;;
  Ok (utf8_decode decrypted).

Record EncryptionResult := {
  encryptedData : list byte;
  iv : jsstring;
  authTag : jsstring }.

Definition encryptFile (data : list byte) (dek : jsstring) (rng : Rng)
  : result (EncryptionResult * Rng) :=
  key <- importKey (hexToUint8Array dek) UsageEncrypt ;;
  '(iv, rng') <- getRandomValues 12 rng ;;
  encrypted <- subtle_encrypt iv key data ;;
  let authTag := slice encrypted (-16) None in
  let ciphertext := slice encrypted 0 (Some (-16)%Z) in
  Ok ({| encryptedData := ciphertext;
         iv := uint8ArrayToHex iv;
         authTag := uint8ArrayToHex authTag |}, rng').

End Service.

End KMS.

(** ** The request handler (document-processor/index.ts, lines 122-290)
    and the tables it works on *)
Module Processor.
Import JS KMS.
Local Open Scope js_scope.

(** *** Rows and stores *)

(** A row of [processing_queue], with the columns of its CREATE TABLE but
    [created_at] and [updated_at].  The table has no [user_id],
    [started_at] or [completed_at]. *)
Record QueueItem := {
  qi_id : jsstring;
  qi_document_id : jsstring;
  qi_task_type : jsstring;
  qi_status : jsstring;
  qi_task_data : jsstring;
  qi_error_message : option jsstring }.

(** A document as the handler reads and writes it. [file_path], [status]
    and [processed_at] are the handler's names for what it reads and
    writes; the update that writes them can come back with an error, as
    every call can.  Timestamps are kept as epoch milliseconds. *)
Record Document := {
  doc_id : jsstring;
  doc_file_path : jsstring;
  doc_status : jsstring;
  doc_processed_at : option N }.

Record EncryptionKey := {
  ek_id : jsstring;
  ek_key_id : jsstring;
  ek_encrypted_dek : jsstring;
  ek_created_by : option jsstring }.

Record DocumentEncryption := {
  de_document_id : jsstring;
  de_encryption_key_id : jsstring;
  de_encrypted_path : jsstring;
  de_iv : jsstring;
  de_auth_tag : jsstring }.

(** A storage bucket: objects by path. *)
Definition Bucket := list (jsstring * list byte).

Fixpoint bucket_get (b : Bucket) (path : jsstring) : option (list byte) :=
  match b with
  | [] => None
  | (p, bytes) :: r => if jseqb p path then Some bytes else bucket_get r path
  end.

Record Database := {
  processing_queue : list QueueItem;
  documents : list Document;
  encryption_keys : list EncryptionKey;
  document_encryption : list DocumentEncryption;
  storage_documents : Bucket;
  storage_encrypted_documents : Bucket }.

Definition with_processing_queue (db : Database) (q : list QueueItem) : Database :=
  {| processing_queue := q;
     documents := documents db;
     encryption_keys := encryption_keys db;
     document_encryption := document_encryption db;
     storage_documents := storage_documents db;
     storage_encrypted_documents := storage_encrypted_documents db |}.

Definition with_documents (db : Database) (d : list Document) : Database :=
  {| processing_queue := processing_queue db;
     documents := d;
     encryption_keys := encryption_keys db;
     document_encryption := document_encryption db;
     storage_documents := storage_documents db;
     storage_encrypted_documents := storage_encrypted_documents db |}.

Definition with_encryption_keys (db : Database) (k : list EncryptionKey) : Database :=
  {| processing_queue := processing_queue db;
     documents := documents db;
     encryption_keys := k;
     document_encryption := document_encryption db;
     storage_documents := storage_documents db;
     storage_encrypted_documents := storage_encrypted_documents db |}.

Definition with_document_encryption (db : Database) (m : list DocumentEncryption)
  : Database :=
  {| processing_queue := processing_queue db;
     documents := documents db;
     encryption_keys := encryption_keys db;
     document_encryption := m;
     storage_documents := storage_documents db;
     storage_encrypted_documents := storage_encrypted_documents db |}.

Definition with_storage_encrypted_documents (db : Database) (b : Bucket) : Database :=
  {| processing_queue := processing_queue db;
     documents := documents db;
     encryption_keys := encryption_keys db;
     document_encryption := document_encryption db;
     storage_documents := storage_documents db;
     storage_encrypted_documents := b |}.

(** *** The processing_queue migration *)

(** [CHECK (status IN ('queued', 'processing', 'completed', 'failed'))]. *)
Definition status_check (status : jsstring) : bool :=
  jseqb status (js "queued") || jseqb status (js "processing")
  || jseqb status (js "completed") || jseqb status (js "failed").

Definition queue_check (db : Database) : Prop :=
  Forall (fun qi => status_check (qi_status qi) = true) (processing_queue db).

(** [enqueue_document_processing]: the INSERT names three columns, so
    [status] takes its default ['queued'] and [error_message] is NULL.
    [queue_id] is the identifier [gen_random_uuid()] gives the row. *)
Definition enqueue_document_processing
  (queue_id p_document_id p_task_type p_task_data : jsstring) (db : Database)
  : jsstring * Database :=
  (queue_id,
   with_processing_queue db
     (processing_queue db ++
      [{| qi_id := queue_id;
          qi_document_id := p_document_id;
          qi_task_type := p_task_type;
          qi_status := js "queued";
          qi_task_data := p_task_data;
          qi_error_message := None |}])).

(** *** The client library *)

(** What a query resolves to: [{ data, error: null }] or
    [{ data: null, error }]. *)
Inductive reply (A : Type) : Type :=
| Data (data : A)
| Failed (message : jsstring).
Arguments Data {A} data.
Arguments Failed {A} message.

(** [.single()]: exactly one row, or an error. *)
Definition single {A} (rows : list A) : reply A :=
  match rows with
  | [row] => Data row
  | _ => Failed (js "JSON object requested, multiple (or no) rows returned")
  end.

(** The awaited calls of the handler whose outcome is up to the
    circumstances, in source order. *)
Inductive site :=
| SQueueSelect | SDocumentSelect | SDownload | SKeyInsert
| SUpload | SMetadataInsert | SDocumentUpdate.

(** The places where the handler reads the clock for a value that is
    kept. *)
Inductive clock_site :=
| AtKeyId | AtEncryptedPath | AtProcessed.

(** The request: its method and what [await req.json()] gives for
    [documentId] (a string, as the upload flow sends it): [None] when the
    body cannot be read as a JSON object, [Some None] when the property is
    absent. *)
Record Request := {
  method : jsstring;
  json_documentId : option (option jsstring) }.

(** Everything outside the handler's control during one invocation: the
    request, the configured secret, which collaborator calls come back with
    an error (and leave the store as it was), the clock, and the identifier
    the database gives the new key row. *)
Record Env := {
  request : Request;
  MASTER_ENCRYPTION_KEY : option jsstring;
  fault : site -> option jsstring;
  now : clock_site -> N;
  key_uuid : jsstring }.

Definition call {A} (env : Env) (s : site) (r : reply A) : reply A :=
  match fault env s with
  | Some message => Failed message
  | None => r
  end.

Inductive ResponseBody :=
| BodyNull
| BodySuccess (message encryptedPath keyId : jsstring)
| BodyError (error : jsstring).

Record Response := { resp_status : N; resp_body : ResponseBody }.

(** The sensitive buffers of an invocation as they are when it returns:
    the plaintext [fileBytes] and the raw [dek], when they were ever
    allocated. *)
Record Memory := {
  mem_fileBytes : option (list byte);
  mem_dek : option jsstring }.

Section Handler.
Context {P : WebPlatform}.

(** The variables fixed once the queue item is found. *)
Record Ctx := {
  documentId : jsstring;
  kms : KMSService;
  queueItem : QueueItem }.

(** The handler between two awaited collaborator calls: the call it is
    about to make and the local variables still in use. *)
Inductive pc :=
| PcStart
| PcClaim (c : Ctx)
| PcLoadDocument (c : Ctx)
| PcDownload (c : Ctx) (document : Document)
| PcCreateKey (c : Ctx) (fileBytes : list byte)
| PcUpload (c : Ctx) (fileBytes : list byte) (dek keyId : jsstring)
           (encryptionKey : EncryptionKey)
| PcStoreMetadata (c : Ctx) (fileBytes : list byte) (dek keyId : jsstring)
                  (encryptionKey : EncryptionKey)
                  (encryptionResult : EncryptionResult) (encryptedPath : jsstring)
| PcUpdateDocument (c : Ctx) (fileBytes : list byte) (dek keyId : jsstring)
                   (encryptedPath : jsstring)
| PcComplete (c : Ctx) (fileBytes : list byte) (dek keyId : jsstring)
             (encryptedPath : jsstring)
| PcDone (response : Response) (memory : Memory).

Record Worker := { w_pc : pc; w_rng : Rng }.

(** The [catch] block: the error is logged and answered with status 500;
    nothing is written to the database. *)
Definition catch (message : jsstring) (fileBytes : option (list byte))
  (dek : option jsstring) : pc :=
  PcDone {| resp_status := 500; resp_body := BodyError message |}
         {| mem_fileBytes := fileBytes; mem_dek := dek |}.

Definition falsy (v : option jsstring) : bool :=
  match v with
  | Some (_ :: _) => false
  | _ => true
  end.

(** Lines 123-153: preflight, request body, and the queue lookup. *)
Definition step_start (env : Env) (db : Database) : pc :=
  if jseqb (method (request env)) (js "OPTIONS") then
    PcDone {| resp_status := 200; resp_body := BodyNull |}
           {| mem_fileBytes := None; mem_dek := None |}
  else
    match json_documentId (request env) with
    | None => catch (exn_message SyntaxError) None None
    | Some v =>
        if falsy v then catch (js "Document ID is required") None None
        else
          let documentId := match v with Some d => d | None => [] end in
          let kms := constructor (MASTER_ENCRYPTION_KEY env) in
          match call env SQueueSelect
                  (single (filter (fun qi =>
                                     jseqb (qi_document_id qi) documentId
                                     && jseqb (qi_status qi) (js "pending"))
                                  (processing_queue db))) with
          | Failed message =>
              catch (js "Queue item not found: " ++ message) None None
          | Data queueItem =>
              PcClaim {| documentId := documentId; kms := kms;
                         queueItem := queueItem |}
          end
    end.

(** Lines 155-162: an update of the row with the item's id, to
    [status] 'processing' and [started_at] now.  [started_at] is not a
    column of [processing_queue], so the request is refused as a whole and
    the table stays as it was; the reply is not inspected and the handler
    goes on. *)
Definition step_claim (env : Env) (c : Ctx) (db : Database) : pc * Database :=
  (PcLoadDocument c, db).

(** Lines 164-173. *)
Definition step_load_document (env : Env) (c : Ctx) (db : Database) : pc :=
  match call env SDocumentSelect
          (single (filter (fun d => jseqb (doc_id d) (documentId c))
                          (documents db))) with
  | Failed message => catch (js "Document not found: " ++ message) None None
  | Data document => PcDownload c document
  end.

(** Lines 175-187. *)
Definition step_download (env : Env) (c : Ctx) (document : Document)
  (db : Database) : pc :=
  match call env SDownload
          (match bucket_get (storage_documents db) (doc_file_path document) with
           | Some bytes => Data bytes
           | None => Failed (js "Object not found")
           end) with
  | Failed message => catch (js "File download failed: " ++ message) None None
  | Data fileData => PcCreateKey c fileData
  end.

(** Lines 189-207.  [queueItem.user_id] is [undefined], the row having no
    such column, so the insert carries no [created_by]. *)
Definition step_create_key (env : Env) (c : Ctx) (fileBytes : list byte)
  (rng : Rng) (db : Database) : Worker * Database :=
  match generateDEK rng with
  | Throw e =>
      ({| w_pc := catch (exn_message e) (Some fileBytes) None; w_rng := rng |}, db)
  | Ok (dek, rng1) =>
      match encryptDEK (kms c) dek rng1 with
      | Throw e =>
          ({| w_pc := catch (exn_message e) (Some fileBytes) (Some dek);
              w_rng := rng1 |}, db)
      | Ok (encryptedDEK, rng2) =>
          let keyId :=
            js "key_" ++ documentId c ++ js "_" ++ toString10 (now env AtKeyId) in
          let row := {| ek_id := key_uuid env;
                        ek_key_id := keyId;
                        ek_encrypted_dek := encryptedDEK;
                        ek_created_by := None |} in
          match call env SKeyInsert (Data row) with
          | Failed message =>
              ({| w_pc := catch (js "Failed to create encryption key: " ++ message)
                                (Some fileBytes) (Some dek);
                  w_rng := rng2 |}, db)
          | Data encryptionKey =>
              ({| w_pc := PcUpload c fileBytes dek keyId encryptionKey;
                  w_rng := rng2 |},
               with_encryption_keys db (encryption_keys db ++ [row]))
          end
      end
  end.

(** Lines 209-225.  An upload to a path that already holds an object is
    refused. *)
Definition step_upload (env : Env) (c : Ctx) (fileBytes : list byte)
  (dek keyId : jsstring) (encryptionKey : EncryptionKey)
  (rng : Rng) (db : Database) : Worker * Database :=
  match encryptFile fileBytes dek rng with
  | Throw e =>
      ({| w_pc := catch (exn_message e) (Some fileBytes) (Some dek);
          w_rng := rng |}, db)
  | Ok (encryptionResult, rng') =>
      let encryptedPath :=
        js "encrypted/" ++ documentId c ++ js "_"
        ++ toString10 (now env AtEncryptedPath) ++ js ".enc" in
      match call env SUpload
              (match bucket_get (storage_encrypted_documents db) encryptedPath with
               | Some _ => Failed (js "The resource already exists")
               | None => Data tt
               end) with
      | Failed message =>
          ({| w_pc := catch (js "Encrypted file upload failed: " ++ message)
                            (Some fileBytes) (Some dek);
              w_rng := rng' |}, db)
      | Data _ =>
          ({| w_pc := PcStoreMetadata c fileBytes dek keyId encryptionKey
                                      encryptionResult encryptedPath;
              w_rng := rng' |},
           with_storage_encrypted_documents db
             (storage_encrypted_documents db
              ++ [(encryptedPath, encryptedData encryptionResult)]))
      end
  end.

(** Lines 227-240. *)
Definition step_store_metadata (env : Env) (c : Ctx) (fileBytes : list byte)
  (dek keyId : jsstring) (encryptionKey : EncryptionKey)
  (encryptionResult : EncryptionResult) (encryptedPath : jsstring)
  (db : Database) : pc * Database :=
  match call env SMetadataInsert (Data tt) with
  | Failed message =>
      (catch (js "Failed to store encryption metadata: " ++ message)
             (Some fileBytes) (Some dek), db)
  | Data _ =>
      (PcUpdateDocument c fileBytes dek keyId encryptedPath,
       with_document_encryption db
         (document_encryption db ++
          [{| de_document_id := documentId c;
              de_encryption_key_id := ek_id encryptionKey;
              de_encrypted_path := encryptedPath;
              de_iv := iv encryptionResult;
              de_auth_tag := authTag encryptionResult |}]))
  end.

(** Lines 242-249; the reply is not inspected. *)
Definition step_update_document (env : Env) (c : Ctx) (db : Database) : Database :=
  match fault env SDocumentUpdate with
  | Some _ => db
  | None =>
      with_documents db
        (map (fun d =>
                if jseqb (doc_id d) (documentId c) then
                  {| doc_id := doc_id d;
                     doc_file_path := doc_file_path d;
                     doc_status := js "encrypted";
                     doc_processed_at := Some (now env AtProcessed) |}
                else d)
             (documents db))
  end.

(** Lines 251-274: an update of the item to [status] 'completed' and
    [completed_at] now, refused as a whole like the one of [step_claim]
    since [completed_at] is no column either (reply not inspected);
    [fileBytes.fill(0)], and the answer. *)
Definition step_complete (env : Env) (c : Ctx) (fileBytes : list byte)
  (dek keyId encryptedPath : jsstring) (db : Database) : pc * Database :=
  (PcDone {| resp_status := 200;
             resp_body := BodySuccess (js "Document encrypted successfully")
                                      encryptedPath keyId |}
          {| mem_fileBytes := Some (map (fun _ => x00) fileBytes);
             mem_dek := Some dek |},
   db).

(** One awaited call of the handler and the code up to the next one. *)
Definition step (env : Env) (w : Worker) (db : Database) : Worker * Database :=
  let same p := ({| w_pc := p; w_rng := w_rng w |}, db) in
  let moved '(p, db') := ({| w_pc := p; w_rng := w_rng w |}, db') in
  match w_pc w with
  | PcStart => same (step_start env db)
  | PcClaim c => moved (step_claim env c db)
  | PcLoadDocument c => same (step_load_document env c db)
  | PcDownload c document => same (step_download env c document db)
  | PcCreateKey c fileBytes => step_create_key env c fileBytes (w_rng w) db
  | PcUpload c fileBytes dek keyId encryptionKey =>
      step_upload env c fileBytes dek keyId encryptionKey (w_rng w) db
  | PcStoreMetadata c fileBytes dek keyId encryptionKey encryptionResult
                    encryptedPath =>
      moved (step_store_metadata env c fileBytes dek keyId encryptionKey
                                 encryptionResult encryptedPath db)
  | PcUpdateDocument c fileBytes dek keyId encryptedPath =>
      ({| w_pc := PcComplete c fileBytes dek keyId encryptedPath;
          w_rng := w_rng w |},
       step_update_document env c db)
  | PcComplete c fileBytes dek keyId encryptedPath =>
      moved (step_complete env c fileBytes dek keyId encryptedPath db)
  | PcDone _ _ => (w, db)
  end.

Fixpoint run (n : nat) (env : Env) (w : Worker) (db : Database)
  : Worker * Database :=
  match n with
  | O => (w, db)
  | S n' => let '(w', db') := step env w db in run n' env w' db'
  end.

Definition start (rng : Rng) : Worker := {| w_pc := PcStart; w_rng := rng |}.

(** One invocation of the handler, run on its own: nine awaited calls
    reach the end of the [try] block. *)
Definition handler (env : Env) (rng : Rng) (db : Database) : Worker * Database :=
  run 9 env (start rng) db.

(** *** Several invocations against one database *)

Record System := {
  sys_db : Database;
  sys_workers : list (Env * Worker) }.

Fixpoint set_nth {A} (i : nat) (x : A) (l : list A) : list A :=
  match l, i with
  | [], _ => []
  | _ :: r, O => x :: r
  | y :: r, S i' => y :: set_nth i' x r
  end.

(** Either a request arrives and a new invocation starts, or one of the
    running invocations makes its next awaited call. *)
Inductive sys_step : System -> System -> Prop :=
| sys_arrive (s : System) (env : Env) (rng : Rng) :
    sys_step s {| sys_db := sys_db s;
                  sys_workers := sys_workers s ++ [(env, start rng)] |}
| sys_advance (s : System) (i : nat) (env : Env) (w : Worker) :
    nth_error (sys_workers s) i = Some (env, w) ->
    sys_step s {| sys_db := snd (step env w (sys_db s));
                  sys_workers :=
                    set_nth i (env, fst (step env w (sys_db s))) (sys_workers s) |}.

Inductive reachable (s0 : System) : System -> Prop :=
| reach_refl : reachable s0 s0
| reach_step (s s' : System) :
    reachable s0 s -> sys_step s s' -> reachable s0 s'.

(** A schedule is the list of the workers' turns. *)
Definition advance (i : nat) (s : System) : System :=
  match nth_error (sys_workers s) i with
  | Some (env, w) =>
      {| sys_db := snd (step env w (sys_db s));
         sys_workers := set_nth i (env, fst (step env w (sys_db s))) (sys_workers s) |}
  | None => s
  end.

Definition run_schedule (schedule : list nat) (s : System) : System :=
  fold_left (fun s i => advance i s) schedule s.

(** *** What a reader of the database looks for *)

Definition has_metadata (db : Database) (id : jsstring) : Prop :=
  exists m, In m (document_encryption db) /\ de_document_id m = id.

(** Every document seen as 'encrypted' has its encryption metadata. *)
Definition encrypted_has_metadata (db : Database) : Prop :=
  forall d, In d (documents db) -> doc_status d = js "encrypted" ->
            has_metadata db (doc_id d).

End Handler.

End Processor.

(** ** The AI provider factory of the RAG handler *)
Module Rag.
Import JS.

(** The two classes implementing [AIProvider]; each keeps the API key its
    constructor read from the environment. *)
Inductive AIProvider :=
| OpenAIProvider (apiKey : jsstring)
| GeminiProvider (apiKey : jsstring).

Record DenoEnv := {
  OPENAI_API_KEY : option jsstring;
  GEMINI_API_KEY : option jsstring }.

(** [Deno.env.get(name) || '']. *)
Definition or_empty (v : option jsstring) : jsstring :=
  match v with
  | Some s => s
  | None => []
  end.

Definition new_OpenAIProvider (e : DenoEnv) : AIProvider :=
  OpenAIProvider (or_empty (OPENAI_API_KEY e)).

Definition new_GeminiProvider (e : DenoEnv) : AIProvider :=
  GeminiProvider (or_empty (GEMINI_API_KEY e)).

(** [AIProviderFactory.create]: the [switch] on [provider.toLowerCase()]. *)
Definition create (e : DenoEnv) (provider : jsstring) : AIProvider :=
  let name := toLowerCase provider in
  if jseqb name (js "openai") then new_OpenAIProvider e
  else if jseqb name (js "gemini") then new_GeminiProvider e
  else new_OpenAIProvider e.

End Rag.

(** ** A platform to run the development on

    A small instance of [WebPlatform] that satisfies [WebPlatformLaws]:
    a counter-driven byte source that can be switched off, a cipher that
    appends a 16-byte tag, and a framing codec for the wrapped key. *)
Module Sim.
Import JS KMS.

Definition sim_bytes (n k : nat) : list byte :=
  map (fun i => byte_of_N (N.of_nat (37 * (k + i) + 11) mod 256)) (seq 0 n).

Definition sim_random (n : nat) (rng : option nat)
  : result (list byte * option nat) :=
  match rng with
  | Some k => Ok (sim_bytes n k, Some (k + n))
  | None => Throw {| exn_name := "OperationError";
                     exn_message := js "random source unavailable" |}
  end.

Definition sim_tag : list byte := repeat x5a 16.

Definition sim_encrypt (key iv data : list byte) : list byte := data ++ sim_tag.

Definition sim_decrypt (key iv data : list byte) : option (list byte) :=
  if length data <? 16 then None
  else Some (firstn (length data - 16) data).

Definition sim_stringify (v : json) : jsstring :=
  match v with
  | JObject [(_, JString encrypted); (_, JString iv)] =>
      N.of_nat (length encrypted) :: encrypted ++ iv
  | _ => []
  end.

(** A frame shorter than its header announces reads as an object whose
    [iv] is the announced number. *)
Definition sim_parse (s : jsstring) : option json :=
  match s with
  | n :: r =>
      if (length r <? N.to_nat n)%nat then
        Some (JObject [(js "encrypted", JString r);
                       (js "iv", JNumber (Z.of_N n))])
      else
        Some (wrapped_object (firstn (N.to_nat n) r) (skipn (N.to_nat n) r))
  | [] => None
  end.

(** A runtime without a limit on the size of an array, which reads a
    number out of a number or a boolean only. *)
Definition sim_own_length (v : json) : length_outcome :=
  match v with
  | JNumber z =>
      if (z <=? -2)%Z then AllocationRefused
      else if (z <=? 0)%Z then LoopSkipped
      else LoopEntered
  | JBool true => LoopEntered
  | _ => LoopSkipped
  end.

#[export] Instance platform : WebPlatform := {|
  Rng := option nat;
  getRandomValues := sim_random;
  aes_gcm_encrypt := sim_encrypt;
  aes_gcm_decrypt := sim_decrypt;
  JSON_stringify := sim_stringify;
  JSON_parse := sim_parse;
  own_length := sim_own_length |}.

End Sim.

(** ** Sample data for the examples *)
Module Sample.
Import JS KMS Processor.

Definition plaintext : list byte := [x31; x30; x20; x62; x79; x74; x65; x73; x21; x0a].

(** One uploaded document with its file, and one task for it in the given
    status. *)
Definition db (task_status : jsstring) : Database :=
  {| processing_queue :=
       [{| qi_id := js "task-1";
           qi_document_id := js "doc-1";
           qi_task_type := js "document_analysis";
           qi_status := task_status;
           qi_task_data := js "{}";
           qi_error_message := None |}];
     documents :=
       [{| doc_id := js "doc-1";
           doc_file_path := js "documents/0.42.txt";
           doc_status := js "uploaded";
           doc_processed_at := None |}];
     encryption_keys := [];
     document_encryption := [];
     storage_documents := [(js "documents/0.42.txt", plaintext)];
     storage_encrypted_documents := [] |}.

(** The database right after the upload flow has enqueued the task. *)
Definition db_enqueued : Database :=
  snd (enqueue_document_processing (js "task-1") (js "doc-1")
         (js "document_analysis") (js "{}")
         {| processing_queue := [];
            documents := documents (db []);
            encryption_keys := [];
            document_encryption := [];
            storage_documents := storage_documents (db []);
            storage_encrypted_documents := [] |}).

Definition no_fault : site -> option jsstring := fun _ => None.

Definition clock (c : clock_site) : N :=
  match c with
  | AtKeyId => 1001
  | AtEncryptedPath => 1002
  | AtProcessed => 1003
  end.

(** A POST for document "doc-1". *)
Definition env (faults : site -> option jsstring) : Env :=
  {| request := {| method := js "POST"; json_documentId := Some (Some (js "doc-1")) |};
     MASTER_ENCRYPTION_KEY := None;
     fault := faults;
     now := clock;
     key_uuid := js "key-row-1" |}.

End Sample.

(** * Properties *)

(** ** Hexadecimal and UTF-8 helpers *)
Module JSFacts.
Import JS KMS.

Lemma jseqb_eq (a b : jsstring) : jseqb a b = true <-> a = b.
Proof.
  revert b; induction a as [|x a IH]; intros [|y b]; simpl;
    try (split; [discriminate | discriminate]); try tauto.
  rewrite andb_true_iff, N.eqb_eq, IH.
  split; [intros [-> ->]; reflexivity | intros E; inversion E; auto].
Qed.

Lemma jseqb_refl (a : jsstring) : jseqb a a = true.
Proof. apply jseqb_eq; reflexivity. Qed.

Lemma jseqb_neq (a b : jsstring) : jseqb a b = false <-> a <> b.
Proof.
  rewrite <- jseqb_eq. destruct (jseqb a b); split; congruence.
Qed.

(** Each byte is written as two lowercase digits that read back as the
    byte: checked on all 256 values. *)
Definition byte_hex_ok (b : byte) : bool :=
  match byteToHex b with
  | [c1; c2] =>
      is_lower_hex c1 && is_lower_hex c2
      && Byte.eqb (toUint8 (parseInt16 [c1; c2])) b
  | _ => false
  end.

Lemma byte_hex_ok_all (b : byte) : byte_hex_ok b = true.
Proof. destruct b; vm_compute; reflexivity. Qed.

Lemma byteToHex_shape (b : byte) :
  exists c1 c2,
    byteToHex b = [c1; c2]
    /\ is_lower_hex c1 = true /\ is_lower_hex c2 = true
    /\ toUint8 (parseInt16 [c1; c2]) = b.
Proof.
  pose proof (byte_hex_ok_all b) as H. unfold byte_hex_ok in H.
  destruct (byteToHex b) as [|c1 [|c2 [|c3 r]]]; try discriminate.
  apply andb_true_iff in H as [H H3]. apply andb_true_iff in H as [H1 H2].
  exists c1, c2. repeat split; auto using Byte.byte_dec_bl.
Qed.

Lemma uint8ArrayToHex_cons (b : byte) (bytes : list byte) :
  uint8ArrayToHex (b :: bytes) = byteToHex b ++ uint8ArrayToHex bytes.
Proof. reflexivity. Qed.

Lemma uint8ArrayToHex_length (bytes : list byte) :
  length (uint8ArrayToHex bytes) = 2 * length bytes.
Proof.
  induction bytes as [|b bytes IH]; [reflexivity|].
  rewrite uint8ArrayToHex_cons, length_app, IH.
  destruct (byteToHex_shape b) as (c1 & c2 & -> & _). simpl. lia.
Qed.

Lemma uint8ArrayToHex_lower_hex (bytes : list byte) :
  Forall (fun c => is_lower_hex c = true) (uint8ArrayToHex bytes).
Proof.
  induction bytes as [|b bytes IH]; [constructor|].
  rewrite uint8ArrayToHex_cons.
  destruct (byteToHex_shape b) as (c1 & c2 & -> & H1 & H2 & _).
  simpl. auto.
Qed.

Lemma hex_chunks_read_back (bytes : list byte) :
  map (fun chunk => toUint8 (parseInt16 chunk)) (hex_chunks (uint8ArrayToHex bytes))
  = bytes.
Proof.
  induction bytes as [|b bytes IH]; [reflexivity|].
  rewrite uint8ArrayToHex_cons.
  destruct (byteToHex_shape b) as (c1 & c2 & -> & _ & _ & E).
  cbn [app hex_chunks map]. rewrite E. f_equal. exact IH.
Qed.

(** The chunks are the substrings the loop of [hexToUint8Array] takes. *)
Lemma hex_chunks_substr (hex : jsstring) (i : nat) :
  2 * i < length hex -> nth i (hex_chunks hex) [] = substr hex (2 * i) 2.
Proof.
  assert (G : forall n hex i, length hex <= n -> 2 * i < length hex ->
                              nth i (hex_chunks hex) [] = substr hex (2 * i) 2).
  { induction n as [|n IH]; intros [|c1 [|c2 rest]] j Hn Hj;
      cbn [length] in *; try lia.
    - destruct j; [reflexivity | lia].
    - destruct j as [|j]; [reflexivity|].
      cbn [hex_chunks nth]. rewrite IH by lia.
      unfold substr. replace (2 * S j) with (S (S (2 * j))) by lia.
      reflexivity. }
  apply (G (length hex)). lia.
Qed.

(** [hexToUint8Array] reads back what [uint8ArrayToHex] wrote. *)
Lemma hexToUint8Array_uint8ArrayToHex (bytes : list byte) :
  hexToUint8Array (uint8ArrayToHex bytes) = bytes.
Proof.
  unfold hexToUint8Array.
  rewrite hex_chunks_read_back, uint8ArrayToHex_length.
  replace (2 * length bytes / 2) with (length bytes)
    by (rewrite Nat.mul_comm, Nat.div_mul; lia).
  apply firstn_all.
Qed.

Lemma lower_hex_is_ascii (c : N) : is_lower_hex c = true -> is_ascii c = true.
Proof.
  unfold is_lower_hex, is_ascii.
  rewrite orb_true_iff, !andb_true_iff, !N.leb_le, N.ltb_lt. lia.
Qed.

Lemma to_N_byte_of_N (c : N) : (c < 256)%N -> Byte.to_N (byte_of_N c) = c.
Proof.
  intros H. unfold byte_of_N.
  destruct (Byte.of_N c) eqn:E.
  - apply Byte.to_of_N; assumption.
  - apply Byte.of_N_None_iff in E. lia.
Qed.

(** An ASCII code unit is encoded as one byte. *)
Lemma utf8_encode_ascii_cons (c : N) (s : jsstring) :
  (c < 128)%N -> utf8_encode (c :: s) = byte_of_N c :: utf8_encode s.
Proof.
  intros Hc.
  cbn [utf8_encode].
  replace (is_high_surrogate c) with false
    by (symmetry; unfold is_high_surrogate; apply andb_false_iff; left;
        apply N.leb_gt; lia).
  replace (is_low_surrogate c) with false
    by (symmetry; unfold is_low_surrogate; apply andb_false_iff; left;
        apply N.leb_gt; lia).
  unfold utf8_of_code_point.
  replace (c <? 128)%N with true by (symmetry; apply N.ltb_lt; lia).
  reflexivity.
Qed.

(** An ASCII code unit is one byte and decodes to itself. *)
Lemma utf8_run_ascii (s : jsstring) :
  Forall (fun c => is_ascii c = true) s ->
  utf8_run utf8_start (utf8_encode s) = s.
Proof.
  induction 1 as [|c s Hc _ IH]; [reflexivity|].
  unfold is_ascii in Hc. apply N.ltb_lt in Hc.
  rewrite utf8_encode_ascii_cons by lia.
  cbn [utf8_run]. rewrite to_N_byte_of_N by lia.
  unfold utf8_step. cbn [u_needed utf8_start]. unfold utf8_lead.
  replace (c <? 128)%N with true by (symmetry; apply N.ltb_lt; lia).
  cbn [app]. rewrite IH. reflexivity.
Qed.

Lemma utf8_decode_no_bom (b : byte) (bytes : list byte) :
  b <> xef -> utf8_decode (b :: bytes) = utf8_run utf8_start (b :: bytes).
Proof. intros H. destruct b; try reflexivity. contradiction H; reflexivity. Qed.

Lemma utf8_decode_encode_ascii (s : jsstring) :
  Forall (fun c => is_ascii c = true) s ->
  utf8_decode (utf8_encode s) = s.
Proof.
  intros H. rewrite <- (utf8_run_ascii s H) at 2.
  destruct H as [|c s Hc Hs]; [reflexivity|].
  unfold is_ascii in Hc. apply N.ltb_lt in Hc.
  rewrite utf8_encode_ascii_cons by lia.
  apply utf8_decode_no_bom.
  intros E. apply (f_equal Byte.to_N) in E.
  rewrite to_N_byte_of_N in E by lia. subst c. vm_compute in Hc. discriminate.
Qed.

End JSFacts.

(** ** KMSService *)
Module KMSFacts.
Import JS KMS JSFacts.
Local Open Scope js_scope.

Lemma pad_fill_single (n : nat) (c : N) : pad_fill n [c] = repeat c n.
Proof.
  unfold pad_fill.
  assert (E : forall k, concat (repeat [c] k) = repeat c k).
  { induction k as [|k IH]; [reflexivity|]. simpl. rewrite IH. reflexivity. }
  rewrite E. apply firstn_all2. rewrite repeat_length. lia.
Qed.

Lemma padEnd_length (c : N) (s : jsstring) :
  length (padEnd 32 [c] s) = Nat.max 32 (length s).
Proof.
  unfold padEnd. destruct (length s <? 32) eqn:E.
  - apply Nat.ltb_lt in E.
    rewrite pad_fill_single, length_app, repeat_length. lia.
  - apply Nat.ltb_ge in E. lia.
Qed.

Lemma slice_prefix {A} (l : list A) (n : nat) :
  slice l 0 (Some (Z.of_nat n)) = firstn n l.
Proof.
  unfold slice, rel_index.
  replace (Z.of_nat n <? 0)%Z with false by (symmetry; apply Z.ltb_ge; lia).
  replace (0 <? 0)%Z with false by reflexivity.
  rewrite Nat2Z.id. change (Z.to_nat 0) with 0.
  rewrite Nat.min_0_l, Nat.sub_0_r. cbn [skipn].
  destruct (Nat.le_gt_cases n (length l)).
  - rewrite Nat.min_l by assumption. reflexivity.
  - rewrite Nat.min_r by lia. rewrite !firstn_all2 by lia. reflexivity.
Qed.

(** After [padEnd(32, '0').slice(0, 32)] the secret has 32 code units. *)
Lemma normalized_secret_length (kms : KMSService) :
  length (slice (padEnd 32 (js "0") (masterKey kms)) 0 (Some 32%Z)) = 32.
Proof.
  change 32%Z with (Z.of_nat 32). rewrite slice_prefix.
  change (js "0") with [48%N].
  rewrite length_firstn, padEnd_length. lia.
Qed.

Lemma utf8_of_code_point_length (cp : N) :
  1 <= length (utf8_of_code_point cp)
  /\ ((65536 <= cp)%N -> length (utf8_of_code_point cp) = 4).
Proof.
  unfold utf8_of_code_point.
  destruct (cp <? 128)%N eqn:E1; [apply N.ltb_lt in E1; simpl; split; [lia|lia]|].
  destruct (cp <? 2048)%N eqn:E2; [apply N.ltb_lt in E2; simpl; split; [lia|lia]|].
  destruct (cp <? 65536)%N eqn:E3; [apply N.ltb_lt in E3; simpl; split; [lia|lia]|].
  simpl; split; [lia|reflexivity].
Qed.

(** UTF-8 never uses fewer bytes than there are code units. *)
Lemma utf8_encode_length_ge (s : jsstring) : length s <= length (utf8_encode s).
Proof.
  assert (G : forall n s, length s <= n -> length s <= length (utf8_encode s)).
  { induction n as [|n IH]; intros [|c rest] Hn; cbn [length] in Hn;
      try (cbn [utf8_encode length]; lia).
    cbn [utf8_encode].
    destruct (is_high_surrogate c).
    - destruct rest as [|d rest']; [cbn [length replacement_utf8]; lia|].
      cbn [length] in Hn.
      destruct (is_low_surrogate d).
      + rewrite length_app.
        destruct (utf8_of_code_point_length
                    (65536 + (c - 55296) * 1024 + (d - 56320))%N) as [_ H4].
        rewrite H4 by lia.
        assert (length rest' <= length (utf8_encode rest')) by (apply IH; lia).
        cbn [length]. lia.
      + rewrite length_app.
        assert (length (d :: rest') <= length (utf8_encode (d :: rest')))
          by (apply IH; cbn [length]; lia).
        cbn [length replacement_utf8] in *. lia.
    - assert (Hr : length rest <= length (utf8_encode rest)) by (apply IH; lia).
      destruct (is_low_surrogate c); rewrite length_app.
      + cbn [length replacement_utf8]. lia.
      + destruct (utf8_of_code_point_length c) as [H1 _]. cbn [length]. lia. }
  apply (G (length s)). lia.
Qed.

Lemma master_key_bytes_length_ge (kms : KMSService) :
  32 <= length (master_key_bytes kms).
Proof.
  unfold master_key_bytes.
  rewrite <- (normalized_secret_length kms) at 1.
  apply utf8_encode_length_ge.
Qed.

Lemma utf8_encode_ascii_length (s : jsstring) :
  Forall (fun c => is_ascii c = true) s ->
  length (utf8_encode s) = length s.
Proof.
  induction 1 as [|c s Hc _ IH]; [reflexivity|].
  unfold is_ascii in Hc. apply N.ltb_lt in Hc.
  rewrite utf8_encode_ascii_cons by lia.
  cbn [length]. rewrite IH. reflexivity.
Qed.

Lemma Forall_prefix {A} (Q : A -> Prop) (n : nat) (l : list A) :
  Forall Q l -> Forall Q (firstn n l).
Proof.
  intros H. revert n. induction H as [|x l Hx _ IH]; intros [|n];
    cbn [firstn]; constructor; auto.
Qed.

(** A secret written in ASCII is well-formed, whatever its length. *)
Lemma ascii_secret_well_formed (kms : KMSService) :
  Forall (fun c => is_ascii c = true) (masterKey kms) ->
  length (master_key_bytes kms) = 32.
Proof.
  intros H. unfold master_key_bytes.
  rewrite utf8_encode_ascii_length; [apply normalized_secret_length|].
  change 32%Z with (Z.of_nat 32). rewrite slice_prefix.
  apply Forall_prefix. unfold padEnd.
  destruct (length (masterKey kms) <? 32); [|exact H].
  apply Forall_app. split; [exact H|].
  change (js "0") with [48%N]. rewrite pad_fill_single.
  apply Forall_forall. intros c Hc. apply repeat_spec in Hc. subst c.
  reflexivity.
Qed.

Lemma importKey_32 (raw : list byte) (usage : key_usage) :
  length raw = 32 ->
  importKey raw usage = Ok {| key_data := raw; key_usage_of := usage |}.
Proof. intros H. unfold importKey. rewrite H. reflexivity. Qed.

Lemma importKey_master_malformed (kms : KMSService) (usage : key_usage) :
  length (master_key_bytes kms) <> 32 ->
  importKey (master_key_bytes kms) usage = Throw DataError.
Proof.
  intros H. pose proof (master_key_bytes_length_ge kms) as G.
  unfold importKey.
  replace (length (master_key_bytes kms) =? 16) with false
    by (symmetry; apply Nat.eqb_neq; lia).
  replace (length (master_key_bytes kms) =? 24) with false
    by (symmetry; apply Nat.eqb_neq; lia).
  replace (length (master_key_bytes kms) =? 32) with false
    by (symmetry; apply Nat.eqb_neq; lia).
  reflexivity.
Qed.

Lemma slice_tail {A} (l : list A) :
  16 <= length l -> slice l (-16) None = skipn (length l - 16) l.
Proof.
  intros H. unfold slice, rel_index. change (-16 <? 0)%Z with true. cbv iota.
  replace (Z.to_nat (Z.max (Z.of_nat (length l) + -16) 0)) with (length l - 16) by lia.
  apply firstn_all2. rewrite length_skipn. lia.
Qed.

Lemma slice_front {A} (l : list A) :
  16 <= length l -> slice l 0 (Some (-16)%Z) = firstn (length l - 16) l.
Proof.
  intros H. unfold slice, rel_index.
  change (-16 <? 0)%Z with true. change (0 <? 0)%Z with false. cbv iota.
  replace (Z.to_nat (Z.max (Z.of_nat (length l) + -16) 0)) with (length l - 16) by lia.
  change (Z.to_nat 0) with 0. rewrite Nat.min_0_l, Nat.sub_0_r. reflexivity.
Qed.

Section Laws.
Context {P : WebPlatform} {L : WebPlatformLaws P}.

(** Unwrapping what was wrapped under the same well-formed secret gives
    the key back, for any key text made of ASCII characters. *)
Lemma decryptDEK_encryptDEK_ascii (kms : KMSService) (dek : jsstring)
  (rng rng' : Rng) (nonce : list byte) :
  length (master_key_bytes kms) = 32 ->
  Forall (fun c => is_ascii c = true) dek ->
  getRandomValues 12 rng = Ok (nonce, rng') ->
  exists wrapped,
    encryptDEK kms dek rng = Ok (wrapped, rng')
    /\ decryptDEK kms wrapped = Ok dek.
Proof.
  intros Hm Hd Hr.
  unfold encryptDEK, decryptDEK.
  rewrite !(importKey_32 _ _ Hm). cbn [bind]. rewrite Hr. cbn [bind].
  unfold subtle_encrypt. cbn [key_usage_of key_data bind].
  eexists. split; [reflexivity|].
  rewrite JSON_parse_stringify. unfold wrapped_object at 1. cbn [bind].
  unfold wrapped_object, get_property.
  cbn [member]. rewrite !jseqb_refl.
  replace (jseqb (js "encrypted") (js "iv")) with false by reflexivity.
  cbn [hexToUint8Array_of bind]. rewrite !hexToUint8Array_uint8ArrayToHex.
  unfold subtle_decrypt. cbn [key_usage_of key_data].
  rewrite aes_gcm_decrypt_encrypt. cbn [bind].
  rewrite utf8_decode_encode_ascii by assumption. reflexivity.
Qed.

(** C8. [generateDEK] draws 32 bytes (256 bits) from the platform's random
    source, [crypto.getRandomValues], and returns them as 64 lowercase
    hexadecimal characters that read back as the drawn key; it throws only
    when the random source itself does, and then with that error. *)
Theorem generateDEK_256_bit_hex (rng : Rng) :
  match getRandomValues 32 rng with
  | Ok (key, rng') =>
      generateDEK rng = Ok (uint8ArrayToHex key, rng')
      /\ length key = 32
      /\ length (uint8ArrayToHex key) = 64
      /\ Forall (fun c => is_lower_hex c = true) (uint8ArrayToHex key)
      /\ hexToUint8Array (uint8ArrayToHex key) = key
  | Throw e => generateDEK rng = Throw e
  end.
Proof.
  unfold generateDEK.
  destruct (getRandomValues 32 rng) as [[key rng']|e] eqn:E; cbn [bind];
    [|reflexivity].
  pose proof (getRandomValues_length _ _ _ _ E) as Hlen.
  repeat split.
  - exact Hlen.
  - rewrite uint8ArrayToHex_length, Hlen. reflexivity.
  - apply uint8ArrayToHex_lower_hex.
  - apply hexToUint8Array_uint8ArrayToHex.
Qed.

(** C9. For every plaintext and every 256-bit DEK (in the hexadecimal form
    [generateDEK] returns), [encryptFile] draws a 12-byte (96-bit) nonce
    from the random source at this call, and returns three fields: the
    ciphertext, the nonce and the 16-byte (128-bit) tag cut off the end of
    the AES-GCM output, the nonce and the tag written in lowercase
    hexadecimal. *)
Theorem encryptFile_three_fields (data key nonce : list byte) (rng rng' : Rng) :
  length key = 32 ->
  getRandomValues 12 rng = Ok (nonce, rng') ->
  exists ciphertext tag,
    encryptFile data (uint8ArrayToHex key) rng
    = Ok ({| encryptedData := ciphertext;
             iv := uint8ArrayToHex nonce;
             authTag := uint8ArrayToHex tag |}, rng')
    /\ aes_gcm_encrypt key nonce data = ciphertext ++ tag
    /\ length nonce = 12 /\ length tag = 16
    /\ length ciphertext = length data
    /\ length (uint8ArrayToHex nonce) = 24
    /\ length (uint8ArrayToHex tag) = 32
    /\ Forall (fun c => is_lower_hex c = true) (uint8ArrayToHex nonce)
    /\ Forall (fun c => is_lower_hex c = true) (uint8ArrayToHex tag).
Proof.
  intros Hkey Hrng.
  pose proof (getRandomValues_length _ _ _ _ Hrng) as Hnonce.
  pose proof (aes_gcm_encrypt_length key nonce data) as Hlen.
  set (out := aes_gcm_encrypt key nonce data) in *.
  exists (firstn (length out - 16) out), (skipn (length out - 16) out).
  unfold encryptFile.
  rewrite hexToUint8Array_uint8ArrayToHex, (importKey_32 _ _ Hkey).
  cbn [bind]. rewrite Hrng. cbn [bind].
  unfold subtle_encrypt. cbn [key_usage_of key_data bind]. fold out.
  rewrite slice_tail, slice_front by lia.
  repeat split.
  - symmetry. apply firstn_skipn.
  - exact Hnonce.
  - rewrite length_skipn. lia.
  - rewrite length_firstn. lia.
  - rewrite uint8ArrayToHex_length, Hnonce. reflexivity.
  - rewrite uint8ArrayToHex_length, length_skipn. lia.
  - apply uint8ArrayToHex_lower_hex.
  - apply uint8ArrayToHex_lower_hex.
Qed.


(** C7. [decryptDEK] undoes [encryptDEK]: for every generated DEK and a
    fixed well-formed master secret, the DEK is generated, wrapped, and
    unwrapping the wrapped text returns exactly that DEK. *)
Theorem decryptDEK_inverts_encryptDEK (secret : option jsstring)
  (rng rng1 rng2 : Rng) (key nonce : list byte) :
  let kms := constructor secret in
  length (master_key_bytes kms) = 32 ->
  getRandomValues 32 rng = Ok (key, rng1) ->
  getRandomValues 12 rng1 = Ok (nonce, rng2) ->
  exists dek wrapped,
    generateDEK rng = Ok (dek, rng1)
    /\ encryptDEK kms dek rng1 = Ok (wrapped, rng2)
    /\ decryptDEK kms wrapped = Ok dek.
Proof.
  intros kms Hm Hkey Hnonce.
  exists (uint8ArrayToHex key).
  assert (Hascii : Forall (fun c => is_ascii c = true) (uint8ArrayToHex key)).
  { eapply Forall_impl; [|apply uint8ArrayToHex_lower_hex].
    intros c. apply lower_hex_is_ascii. }
  destruct (decryptDEK_encryptDEK_ascii kms _ _ _ _ Hm Hascii Hnonce)
    as (wrapped & Hw & Hd).
  exists wrapped. repeat split; try assumption.
  unfold generateDEK. rewrite Hkey. reflexivity.
Qed.

End Laws.

(** The simulated platform satisfies the laws. *)
Lemma sim_laws : WebPlatformLaws Sim.platform.
Proof.
  constructor.
  - intros n [k|] bytes rng' H; simpl in H; [|discriminate].
    inversion H; subst. unfold Sim.sim_bytes. rewrite length_map, length_seq.
    reflexivity.
  - intros key iv data. simpl. unfold Sim.sim_encrypt.
    rewrite length_app. reflexivity.
  - intros key iv data. simpl. unfold Sim.sim_decrypt, Sim.sim_encrypt.
    rewrite length_app. change (length Sim.sim_tag) with 16.
    replace (length data + 16 <? 16) with false by (symmetry; apply Nat.ltb_ge; lia).
    replace (length data + 16 - 16) with (length data + 0) by lia.
    rewrite firstn_app_2. cbn [firstn]. rewrite app_nil_r. reflexivity.
  - intros encrypted iv. simpl. unfold Sim.sim_parse. rewrite Nat2N.id.
    replace (length (encrypted ++ iv) <? length encrypted) with false
      by (symmetry; apply Nat.ltb_ge; rewrite length_app; lia).
    replace (length encrypted) with (length encrypted + 0) by lia.
    rewrite firstn_app_2, skipn_app.
    replace (length encrypted + 0 - length encrypted) with 0 by lia.
    rewrite skipn_all2 by lia. cbn [firstn skipn app]. rewrite app_nil_r.
    reflexivity.
Qed.

Lemma generateDEK_256_bit_hex_witness :
  (exists key,
      @generateDEK Sim.platform (Some 0) = Ok (uint8ArrayToHex key, Some 32)
      /\ length key = 32 /\ length (uint8ArrayToHex key) = 64)
  /\ (exists e, @generateDEK Sim.platform None = Throw e).
Proof.
  split.
  - pose proof (@generateDEK_256_bit_hex Sim.platform sim_laws (Some 0)) as H.
    cbn [getRandomValues Sim.platform Sim.sim_random] in H.
    destruct H as (H1 & H2 & H3 & _).
    eexists. split; [exact H1|]. split; [exact H2 | exact H3].
  - pose proof (@generateDEK_256_bit_hex Sim.platform sim_laws None) as H.
    cbn [getRandomValues Sim.platform Sim.sim_random] in H.
    eexists. exact H.
Defined.

Lemma encryptFile_three_fields_witness :
  exists ciphertext tag,
    @encryptFile Sim.platform Sample.plaintext
      (uint8ArrayToHex (Sim.sim_bytes 32 0)) (Some 32)
    = Ok ({| encryptedData := ciphertext;
             iv := uint8ArrayToHex (Sim.sim_bytes 12 32);
             authTag := uint8ArrayToHex tag |}, Some 44)
    /\ length tag = 16 /\ length ciphertext = 10.
Proof.
  destruct (@encryptFile_three_fields Sim.platform sim_laws Sample.plaintext
              (Sim.sim_bytes 32 0) (Sim.sim_bytes 12 32) (Some 32) (Some 44)
              eq_refl eq_refl)
    as (ciphertext & tag & H1 & _ & _ & H4 & H5 & _).
  exists ciphertext, tag. split; [exact H1|]. split; [exact H4 | exact H5].
Defined.


Lemma decryptDEK_inverts_encryptDEK_witness :
  exists dek wrapped,
    @generateDEK Sim.platform (Some 0) = Ok (dek, Some 32)
    /\ @encryptDEK Sim.platform (constructor None) dek (Some 32)
       = Ok (wrapped, Some 44)
    /\ @decryptDEK Sim.platform (constructor None) wrapped = Ok dek.
Proof.
  exact (@decryptDEK_inverts_encryptDEK Sim.platform sim_laws None
           (Some 0) (Some 32) (Some 44) (Sim.sim_bytes 32 0) (Sim.sim_bytes 12 32)
           eq_refl eq_refl eq_refl).
Defined.

End KMSFacts.

(** ** The request handler *)
Module ProcessorFacts.
Import JS KMS Processor JSFacts.

(** The columns of [processing_queue] that record a failure are never
    written by a step: [error_message] stays as it was and no row becomes
    'failed'. *)
Definition failure_untouched (before after : QueueItem) : Prop :=
  qi_error_message after = qi_error_message before
  /\ (qi_status after = js "failed" -> qi_status before = js "failed").

(** The response of an invocation that has returned. *)
Definition response_of {P : WebPlatform} (w : Worker) : option Response :=
  match w_pc w with
  | PcDone response _ => Some response
  | _ => None
  end.

(** How many awaited calls an invocation still has before it returns. *)
Definition rank {P : WebPlatform} (p : pc) : nat :=
  match p with
  | PcStart => 9
  | PcClaim _ => 8
  | PcLoadDocument _ => 7
  | PcDownload _ _ => 6
  | PcCreateKey _ _ => 5
  | PcUpload _ _ _ _ _ => 4
  | PcStoreMetadata _ _ _ _ _ _ _ => 3
  | PcUpdateDocument _ _ _ _ _ => 2
  | PcComplete _ _ _ _ _ => 1
  | PcDone _ _ => 0
  end.

(** What one invocation believes about the database while it runs: when it
    is about to mark the document 'encrypted', the metadata is there. *)
Definition metadata_written {P : WebPlatform} (db : Database) (w : Worker) : Prop :=
  match w_pc w with
  | PcUpdateDocument c _ _ _ _ => has_metadata db (documentId c)
  | _ => True
  end.

Definition system_invariant {P : WebPlatform} (s : System) : Prop :=
  encrypted_has_metadata (sys_db s)
  /\ Forall (fun ew => metadata_written (sys_db s) (snd ew)) (sys_workers s).

(** The documents and the encryption metadata are as in [db0]. *)
Definition unchanged (db0 db : Database) : Prop :=
  documents db = documents db0
  /\ document_encryption db = document_encryption db0.

(** Until the metadata insert has succeeded, and in the [catch] block
    afterwards, the invocation has left them alone. *)
Definition failure_frame {P : WebPlatform} (db0 : Database) (w : Worker)
  (db : Database) : Prop :=
  match w_pc w with
  | PcUpdateDocument _ _ _ _ _ | PcComplete _ _ _ _ _ => True
  | PcDone response _ => resp_status response = 500%N -> unchanged db0 db
  | _ => unchanged db0 db
  end.

Ltac break_match :=
  match goal with
  | |- context [match ?x with _ => _ end] => destruct x eqn:?
  | H : context [match ?x with _ => _ end] |- _ => destruct x eqn:?
  end.

Ltac invert_equations :=
  repeat match goal with
         | H : (_, _) = (_, _) |- _ => inversion H; clear H; subst
         | H : Data _ = Data _ |- _ => inversion H; clear H; subst
         | H : Ok _ = Ok _ |- _ => inversion H; clear H; subst
         | H : Some _ = Some _ |- _ => inversion H; clear H; subst
         end.

Ltac unfold_steps :=
  unfold step, step_start, step_claim, step_load_document, step_download,
    step_create_key, step_upload, step_store_metadata, step_update_document,
    step_complete, catch, call in *.

Section Run.
Context {P : WebPlatform}.

Lemma step_rank (env : Env) (w : Worker) (db : Database) :
  rank (w_pc (fst (step env w db))) <= pred (rank (w_pc w)).
Proof.
  destruct w as [p rng]. destruct p; unfold_steps; cbn [w_pc w_rng];
    repeat break_match; try discriminate; invert_equations;
    cbn [fst w_pc rank pred]; lia.
Qed.

Lemma run_reaches_done (n : nat) :
  forall env w db, rank (w_pc w) <= n -> rank (w_pc (fst (run n env w db))) = 0.
Proof.
  induction n as [|n IH]; intros env w db H; cbn [run].
  - cbn [fst]. lia.
  - destruct (step env w db) as [w' db'] eqn:E.
    apply IH. pose proof (step_rank env w db) as R. rewrite E in R.
    cbn [fst] in R. lia.
Qed.

(** Every invocation returns: nine awaited calls are enough for the
    handler to produce its response. *)
Lemma handler_returns (env : Env) (rng : Rng) (db : Database) :
  exists response memory,
    w_pc (fst (handler env rng db)) = PcDone response memory.
Proof.
  pose proof (run_reaches_done 9 env (start rng) db) as H.
  unfold handler.
  destruct (w_pc (fst (run 9 env (start rng) db))); cbn [rank] in H;
    try (specialize (H ltac:(cbn; lia)); discriminate).
  eauto.
Qed.

Lemma run_S (n : nat) (env : Env) (w : Worker) (db : Database) :
  run (S n) env w db
  = run n env (fst (step env w db)) (snd (step env w db)).
Proof. cbn [run]. destruct (step env w db); reflexivity. Qed.

Lemma run_done (n : nat) (env : Env) (w : Worker) (db : Database)
  (response : Response) (memory : Memory) :
  w_pc w = PcDone response memory -> run n env w db = (w, db).
Proof.
  intros H. induction n as [|n IH]; [reflexivity|].
  cbn [run]. unfold step. rewrite H. exact IH.
Qed.

(** *** The queue lookup against the migration's CHECK *)

Lemma status_check_not_pending (status : jsstring) :
  status_check status = true -> jseqb status (js "pending") = false.
Proof.
  unfold status_check. rewrite !orb_true_iff, !jseqb_eq.
  intros [[[-> | ->] | ->] | ->]; reflexivity.
Qed.

Lemma no_pending_row (db : Database) (documentId : jsstring) :
  queue_check db ->
  filter (fun qi => jseqb (qi_document_id qi) documentId
                    && jseqb (qi_status qi) (js "pending"))
         (processing_queue db) = [].
Proof.
  unfold queue_check. induction 1 as [|qi rows Hqi _ IH]; [reflexivity|].
  cbn [filter]. rewrite (status_check_not_pending _ Hqi), andb_false_r.
  exact IH.
Qed.

(** C2. Under the CHECK constraint of the migration, which admits the
    statuses 'queued', 'processing', 'completed' and 'failed', the lookup
    of the handler (it filters on status 'pending') finds no task: every
    request for a document ends in the [catch] block with "Queue item not
    found", and the database, the document's 'queued' task included, is
    left exactly as it was. *)
Theorem queued_task_is_not_found (env : Env) (rng : Rng) (db : Database)
  (documentId : jsstring) :
  queue_check db ->
  jseqb (method (request env)) (js "OPTIONS") = false ->
  json_documentId (request env) = Some (Some documentId) ->
  documentId <> [] ->
  exists message,
    handler env rng db
    = ({| w_pc := catch (js "Queue item not found: " ++ message) None None;
          w_rng := rng |}, db).
Proof.
  intros Hcheck Hmethod Hbody Hid.
  assert (E : exists message,
             step_start env db
             = catch (js "Queue item not found: " ++ message) None None).
  { unfold step_start. rewrite Hmethod, Hbody.
    destruct documentId as [|c r]; [contradiction Hid; reflexivity|].
    cbn [falsy]. rewrite (no_pending_row db (c :: r) Hcheck).
    unfold call, single.
    destruct (fault env SQueueSelect) as [m|]; eexists; reflexivity. }
  destruct E as [message E]. exists message.
  unfold handler. rewrite run_S. unfold step. cbn [start w_pc w_rng fst snd].
  rewrite E. eapply run_done. reflexivity.
Qed.

(** *** Metadata before the status flip *)

Lemma step_keeps_metadata (env : Env) (w : Worker) (db : Database)
  (m : DocumentEncryption) :
  In m (document_encryption db) ->
  In m (document_encryption (snd (step env w db))).
Proof.
  intros Hin. destruct w as [p rng].
  destruct p; unfold_steps; cbn [w_pc w_rng];
    repeat break_match; try discriminate; invert_equations;
    cbn [snd document_encryption with_processing_queue with_documents
         with_encryption_keys with_document_encryption
         with_storage_encrypted_documents];
    try assumption.
  apply in_or_app. left. assumption.
Qed.

Lemma step_keeps_has_metadata (env : Env) (w : Worker) (db : Database)
  (id : jsstring) :
  has_metadata db id -> has_metadata (snd (step env w db)) id.
Proof.
  intros (m & Hin & Hid). exists m. split; [|exact Hid].
  apply step_keeps_metadata. exact Hin.
Qed.

(** The only step that changes [documents] is the one at line 243, and it
    changes the rows of the invocation's own document. *)
Lemma step_documents (env : Env) (w : Worker) (db : Database) :
  documents (snd (step env w db)) = documents db
  \/ exists c fileBytes dek keyId encryptedPath,
       w_pc w = PcUpdateDocument c fileBytes dek keyId encryptedPath
       /\ documents (snd (step env w db))
          = map (fun d =>
                   if jseqb (doc_id d) (documentId c) then
                     {| doc_id := doc_id d;
                        doc_file_path := doc_file_path d;
                        doc_status := js "encrypted";
                        doc_processed_at := Some (now env AtProcessed) |}
                   else d)
                (documents db).
Proof.
  destruct w as [p rng].
  destruct p; unfold_steps; cbn [w_pc w_rng];
    repeat break_match; try discriminate; invert_equations;
    cbn [snd documents with_processing_queue with_documents
         with_encryption_keys with_document_encryption
         with_storage_encrypted_documents];
    try (left; reflexivity).
  right. do 5 eexists. split; reflexivity.
Qed.

Lemma step_metadata_written (env : Env) (w : Worker) (db : Database) :
  metadata_written db w ->
  metadata_written (snd (step env w db)) (fst (step env w db)).
Proof.
  destruct w as [p rng]. intros _.
  destruct p; unfold_steps; cbn [w_pc w_rng];
    repeat break_match; try discriminate; invert_equations;
    cbn [fst snd]; unfold metadata_written; cbn [w_pc]; try exact I.
  eexists. split.
  - cbn [document_encryption with_document_encryption].
    apply in_or_app. right. left. reflexivity.
  - reflexivity.
Qed.

(** One awaited call of an invocation keeps the reader's invariant,
    provided the invocation has written its metadata when it is about to
    flip the status. *)
Lemma step_keeps_encrypted_has_metadata (env : Env) (w : Worker) (db : Database) :
  encrypted_has_metadata db ->
  metadata_written db w ->
  encrypted_has_metadata (snd (step env w db)).
Proof.
  intros Hdb Hw d Hin Hstatus.
  destruct (step_documents env w db) as [E | (c & fb & dek & kid & ep & Hpc & E)];
    rewrite E in Hin.
  - apply step_keeps_has_metadata. apply Hdb; assumption.
  - apply step_keeps_has_metadata.
    apply in_map_iff in Hin as (d0 & Hd & Hin0).
    destruct (jseqb (doc_id d0) (documentId c)) eqn:Eid.
    + subst d. cbn [doc_id]. apply jseqb_eq in Eid. rewrite Eid.
      unfold metadata_written in Hw. rewrite Hpc in Hw. exact Hw.
    + subst d0. apply Hdb; assumption.
Qed.

Lemma Forall_set_nth {A} (Q : A -> Prop) (i : nat) (x : A) (l : list A) :
  Forall Q l -> Q x -> Forall Q (set_nth i x l).
Proof.
  intros Hl Hx. revert i. induction Hl as [|y l Hy Hl IH]; intros i.
  - destruct i; constructor.
  - destruct i; cbn [set_nth]; constructor; auto.
Qed.

Lemma sys_step_invariant (s s' : System) :
  system_invariant s -> sys_step s s' -> system_invariant s'.
Proof.
  intros [Hdb Hws] Hstep. destruct Hstep as [s env rng | s i env w Hnth].
  - split; cbn [sys_db sys_workers]; [exact Hdb|].
    apply Forall_app. split; [exact Hws|].
    constructor; [exact I | constructor].
  - assert (Hw : metadata_written (sys_db s) w).
    { apply nth_error_In in Hnth.
      rewrite Forall_forall in Hws. exact (Hws _ Hnth). }
    split; cbn [sys_db sys_workers].
    + apply step_keeps_encrypted_has_metadata; assumption.
    + apply Forall_set_nth.
      * eapply Forall_impl; [|exact Hws].
        intros [env' w'] H'. cbn [snd] in *. unfold metadata_written in *.
        destruct (w_pc w'); try exact I.
        apply step_keeps_has_metadata. exact H'.
      * cbn [snd]. apply step_metadata_written. exact Hw.
Qed.

Lemma reachable_invariant (s0 s : System) :
  system_invariant s0 -> reachable s0 s -> system_invariant s.
Proof.
  intros H0 Hr. induction Hr as [|s s' _ IH Hstep]; [exact H0|].
  eapply sys_step_invariant; eassumption.
Qed.

(** C4. The metadata insert comes before the status update, so in every
    state that any interleaving of invocations can reach from a database
    where each 'encrypted' document has its metadata (and no invocation is
    under way), a reader who sees a document with status 'encrypted' finds
    a [document_encryption] row for it. *)
Theorem encrypted_document_has_metadata (s0 s : System) :
  sys_workers s0 = [] ->
  encrypted_has_metadata (sys_db s0) ->
  reachable s0 s ->
  forall d,
    In d (documents (sys_db s)) ->
    doc_status d = js "encrypted" ->
    exists m, In m (document_encryption (sys_db s))
              /\ de_document_id m = doc_id d.
Proof.
  intros Hnone Hdb Hr.
  assert (H0 : system_invariant s0).
  { split; [exact Hdb|]. rewrite Hnone. constructor. }
  destruct (reachable_invariant s0 s H0 Hr) as [H _]. exact H.
Qed.

Lemma advance_reachable (s0 s : System) (i : nat) :
  reachable s0 s -> reachable s0 (advance i s).
Proof.
  intros Hr. unfold advance.
  destruct (nth_error (sys_workers s) i) as [[env w]|] eqn:E; [|exact Hr].
  eapply reach_step; [exact Hr|]. apply sys_advance. exact E.
Qed.

Lemma run_schedule_reachable (schedule : list nat) (s0 s : System) :
  reachable s0 s -> reachable s0 (run_schedule schedule s).
Proof.
  unfold run_schedule. revert s.
  induction schedule as [|i schedule IH]; intros s Hr; cbn [fold_left];
    [exact Hr|].
  apply IH. apply advance_reachable. exact Hr.
Qed.

(** *** Callers racing for a queued task *)

Lemma step_at_start (env : Env) (rng : Rng) (db : Database) :
  step env (start rng) db
  = ({| w_pc := step_start env db; w_rng := rng |}, db).
Proof. reflexivity. Qed.

(** Under the CHECK constraint the first lines of the handler return: the
    lookup for a 'pending' task finds no row. *)
Lemma step_start_returns (env : Env) (db : Database) :
  queue_check db ->
  exists response, step_start env db
                   = PcDone response {| mem_fileBytes := None; mem_dek := None |}.
Proof.
  intros Hcheck. unfold step_start, catch.
  destruct (jseqb (method (request env)) (js "OPTIONS")); [eexists; reflexivity|].
  destruct (json_documentId (request env)) as [v|]; [|eexists; reflexivity].
  destruct (falsy v); [eexists; reflexivity|].
  rewrite (no_pending_row db _ Hcheck). unfold call, single.
  destruct (fault env SQueueSelect); eexists; reflexivity.
Qed.

Lemma step_start_not_found (env : Env) (db : Database) (d : jsstring) :
  queue_check db ->
  jseqb (method (request env)) (js "OPTIONS") = false ->
  json_documentId (request env) = Some (Some d) ->
  d <> [] ->
  exists message,
    step_start env db = catch (js "Queue item not found: " ++ message) None None.
Proof.
  intros Hcheck Hmethod Hbody Hd. unfold step_start. rewrite Hmethod, Hbody.
  destruct d as [|c r]; [contradiction Hd; reflexivity|].
  cbn [falsy]. rewrite (no_pending_row db (c :: r) Hcheck).
  unfold call, single.
  destruct (fault env SQueueSelect); eexists; reflexivity.
Qed.

(** While the database is [db], the invocation is still before its first
    call or has returned from its first lines. *)
Definition before_claim (db : Database) (ew : Env * Worker) : Prop :=
  w_pc (snd ew) = PcStart \/ w_pc (snd ew) = step_start (fst ew) db.

Lemma sys_step_before_claim (db : Database) (s s' : System) :
  queue_check db ->
  sys_db s = db /\ Forall (before_claim db) (sys_workers s) ->
  sys_step s s' ->
  sys_db s' = db /\ Forall (before_claim db) (sys_workers s').
Proof.
  intros Hcheck [Hdb Hws] Hstep.
  destruct Hstep as [s env rng | s i env w Hnth]; cbn [sys_db sys_workers].
  - split; [exact Hdb|]. apply Forall_app. split; [exact Hws|].
    constructor; [left; reflexivity | constructor].
  - assert (Hw : before_claim db (env, w)).
    { apply nth_error_In in Hnth. rewrite Forall_forall in Hws.
      exact (Hws _ Hnth). }
    assert (E : step env w (sys_db s) = ({| w_pc := step_start env db;
                                            w_rng := w_rng w |}, db)
                \/ step env w (sys_db s) = (w, db)).
    { rewrite Hdb. destruct w as [p rng]. destruct Hw as [Hw|Hw];
        cbn [fst snd w_pc] in Hw; subst p.
      - left. reflexivity.
      - right. destruct (step_start_returns env db Hcheck) as [r Hr].
        unfold step. cbn [w_pc]. rewrite Hr. reflexivity. }
    destruct E as [E|E]; rewrite E; cbn [fst snd]; (split; [reflexivity|]);
      apply Forall_set_nth; try exact Hws.
    + right. reflexivity.
    + exact Hw.
Qed.

(** C3.  On a queue that satisfies the CHECK constraint nobody claims
    anything.  However many callers race and however their calls
    interleave, the database stays exactly as it was, so a 'queued' task
    is still 'queued'; and every caller that asked for a document is
    either before its lookup or has been answered "Queue item not found",
    with no plaintext and no key in memory.  Of N callers racing for a
    queued task, none succeeds. *)
Theorem no_caller_claims_a_queued_task (s0 s : System) :
  queue_check (sys_db s0) ->
  Forall (fun ew => w_pc (snd ew) = PcStart) (sys_workers s0) ->
  reachable s0 s ->
  sys_db s = sys_db s0
  /\ forall env w d,
       In (env, w) (sys_workers s) ->
       jseqb (method (request env)) (js "OPTIONS") = false ->
       json_documentId (request env) = Some (Some d) ->
       d <> [] ->
       w_pc w = PcStart
       \/ exists message,
            w_pc w = catch (js "Queue item not found: " ++ message) None None.
Proof.
  intros Hcheck Hstart Hr.
  assert (Hinv : sys_db s = sys_db s0
                 /\ Forall (before_claim (sys_db s0)) (sys_workers s)).
  { induction Hr as [|s s' _ IH Hstep].
    - split; [reflexivity|]. eapply Forall_impl; [|exact Hstart].
      intros ew H. left. exact H.
    - eapply sys_step_before_claim; eassumption. }
  destruct Hinv as [Hdb Hws]. split; [exact Hdb|].
  intros env w d Hin Hmethod Hbody Hd.
  rewrite Forall_forall in Hws. destruct (Hws _ Hin) as [H|H]; cbn [fst snd] in H.
  - left. exact H.
  - right. rewrite H.
    exact (step_start_not_found env (sys_db s0) d Hcheck Hmethod Hbody Hd).
Qed.

(** *** What a failed invocation leaves alone *)

Lemma step_failure_frame (env : Env) (db0 : Database) (w : Worker) (db : Database) :
  failure_frame db0 w db ->
  failure_frame db0 (fst (step env w db)) (snd (step env w db)).
Proof.
  destruct w as [p rng]. intros H.
  destruct p; unfold_steps; cbn [w_pc w_rng];
    repeat break_match; try discriminate; invert_equations;
    cbn [fst snd]; unfold failure_frame, unchanged in *;
    cbn [w_pc resp_status documents document_encryption
         with_processing_queue with_documents with_encryption_keys
         with_document_encryption with_storage_encrypted_documents] in *;
    try exact I; try exact H; try (intros _; exact H);
    intros E; discriminate E.
Qed.

(** X15. An invocation that ends in the [catch] block has changed
    neither a document's status nor the encryption metadata. *)
Lemma failure_leaves_documents_and_metadata (env : Env) (rng : Rng)
  (db : Database) (response : Response) (memory : Memory) :
  w_pc (fst (handler env rng db)) = PcDone response memory ->
  resp_status response = 500%N ->
  documents (snd (handler env rng db)) = documents db
  /\ document_encryption (snd (handler env rng db)) = document_encryption db.
Proof.
  assert (G : forall n w db',
             failure_frame db w db' ->
             failure_frame db (fst (run n env w db')) (snd (run n env w db'))).
  { induction n as [|n IH]; intros w db' H; [exact H|].
    rewrite run_S. apply IH. apply step_failure_frame. exact H. }
  intros Hpc Hstatus.
  specialize (G 9 (start rng) db (conj eq_refl eq_refl)).
  unfold handler in *. unfold failure_frame in G. rewrite Hpc in G.
  exact (G Hstatus).
Qed.

(** *** No step records a failure *)

Lemma Forall2_map_self {A} (R : A -> A -> Prop) (f : A -> A) (l : list A) :
  (forall x, R x (f x)) -> Forall2 R l (map f l).
Proof. intros H. induction l; cbn [map]; constructor; auto. Qed.

Lemma failure_untouched_refl (l : list QueueItem) :
  Forall2 failure_untouched l l.
Proof.
  rewrite <- (map_id l) at 2. apply Forall2_map_self.
  intros x. split; auto.
Qed.

Lemma failure_untouched_trans (l1 l2 l3 : list QueueItem) :
  Forall2 failure_untouched l1 l2 -> Forall2 failure_untouched l2 l3 ->
  Forall2 failure_untouched l1 l3.
Proof.
  intros H12. revert l3. induction H12 as [|x y l1 l2 [Hm Hs] _ IH];
    intros l3 H23; inversion H23 as [|y' z l2' l3' [Hm' Hs'] Hrest]; subst;
    constructor; auto.
  split; [congruence | auto].
Qed.

Lemma step_failure_untouched (env : Env) (w : Worker) (db : Database) :
  Forall2 failure_untouched (processing_queue db)
          (processing_queue (snd (step env w db))).
Proof.
  destruct w as [p rng].
  destruct p; unfold_steps; cbn [w_pc w_rng];
    repeat break_match; try discriminate; invert_equations;
    cbn [snd processing_queue with_processing_queue with_documents
         with_encryption_keys with_document_encryption
         with_storage_encrypted_documents];
    try apply failure_untouched_refl;
    apply Forall2_map_self; intros x;
    destruct (jseqb (qi_id x) _); split; cbn [qi_error_message qi_status];
    auto; discriminate.
Qed.

(** X14. Whatever happens during an invocation, it leaves every task's
    [error_message] as it was and moves no task to 'failed'. *)
Lemma handler_never_records_failure (env : Env) (rng : Rng) (db : Database) :
  Forall2 failure_untouched (processing_queue db)
          (processing_queue (snd (handler env rng db))).
Proof.
  unfold handler. generalize (start rng) as w. generalize 9 as n.
  intros n. revert db. induction n as [|n IH]; intros db w.
  - apply failure_untouched_refl.
  - rewrite run_S. eapply failure_untouched_trans; [|apply IH].
    apply step_failure_untouched.
Qed.

End Run.

(** *** The handler on the sample data *)

Definition sample_env : Env := Sample.env Sample.no_fault.

Definition sample_task (status : jsstring) : QueueItem :=
  {| qi_id := js "task-1";
     qi_document_id := js "doc-1";
     qi_task_type := js "document_analysis";
     qi_status := status;
     qi_task_data := js "{}";
     qi_error_message := None |}.

(** Two invocations for the same document, started at the same time. *)
Definition two_callers (db : Database) : @System Sim.platform :=
  {| sys_db := db;
     sys_workers := [(sample_env, @start Sim.platform (Some 0));
                     (sample_env, @start Sim.platform (Some 100))] |}.

Definition not_found : Response :=
  {| resp_status := 500;
     resp_body :=
       BodyError (js "Queue item not found: JSON object requested, multiple (or no) rows returned") |}.

Lemma queued_task_is_not_found_witness :
  map qi_status (processing_queue Sample.db_enqueued) = [js "queued"]
  /\ exists message,
      @handler Sim.platform sample_env (Some 0) Sample.db_enqueued
      = (@Build_Worker Sim.platform
           (catch (js "Queue item not found: " ++ message) None None) (Some 0),
         Sample.db_enqueued).
Proof.
  split; [reflexivity|].
  apply (@queued_task_is_not_found Sim.platform sample_env (Some 0)
           Sample.db_enqueued (js "doc-1")).
  - repeat constructor.
  - reflexivity.
  - reflexivity.
  - discriminate.
Defined.

Lemma no_caller_claims_a_queued_task_witness :
  map qi_status
    (processing_queue
       (sys_db (run_schedule [0; 1; 0; 1] (two_callers Sample.db_enqueued))))
  = [js "queued"]
  /\ map (fun ew => response_of (snd ew))
       (sys_workers (run_schedule [0; 1; 0; 1] (two_callers Sample.db_enqueued)))
     = [Some not_found; Some not_found]
  /\ sys_db (run_schedule [0; 1; 0; 1] (two_callers Sample.db_enqueued))
     = Sample.db_enqueued.
Proof.
  destruct (@no_caller_claims_a_queued_task Sim.platform
              (two_callers Sample.db_enqueued)
              (run_schedule [0; 1; 0; 1] (two_callers Sample.db_enqueued)))
    as [Hdb _].
  - repeat constructor.
  - repeat constructor.
  - apply run_schedule_reachable. apply reach_refl.
  - split; [rewrite Hdb; reflexivity|].
    split; [vm_compute; reflexivity | exact Hdb].
Defined.

(** An admissible database in which the document is already encrypted:
    its task is 'completed' and its metadata row is there. *)
Definition db_encrypted : Database :=
  {| processing_queue := [sample_task (js "completed")];
     documents :=
       [{| doc_id := js "doc-1";
           doc_file_path := js "documents/0.42.txt";
           doc_status := js "encrypted";
           doc_processed_at := Some 1003%N |}];
     encryption_keys :=
       [{| ek_id := js "key-row-1";
           ek_key_id := js "key_doc-1_1001";
           ek_encrypted_dek := [];
           ek_created_by := None |}];
     document_encryption :=
       [{| de_document_id := js "doc-1";
           de_encryption_key_id := js "key-row-1";
           de_encrypted_path := js "encrypted/doc-1_1002.enc";
           de_iv := [];
           de_auth_tag := [] |}];
     storage_documents := [(js "documents/0.42.txt", Sample.plaintext)];
     storage_encrypted_documents := [(js "encrypted/doc-1_1002.enc", [])] |}.

(** One invocation run to its end on a table that held the status the
    lookup asks for. *)
Definition sample_run : @System Sim.platform :=
  run_schedule (repeat 0 9)
    {| sys_db := Sample.db (js "pending");
       sys_workers := [(sample_env, @start Sim.platform (Some 0))] |}.

Lemma encrypted_document_has_metadata_witness :
  (map doc_status
     (documents (sys_db (run_schedule [0; 1; 0; 1] (two_callers db_encrypted))))
   = [js "encrypted"]
   /\ exists m,
        In m (document_encryption
                (sys_db (run_schedule [0; 1; 0; 1] (two_callers db_encrypted))))
        /\ de_document_id m = js "doc-1")
  /\ map doc_status (documents (sys_db sample_run)) = [js "encrypted"]
  /\ exists m, In m (document_encryption (sys_db sample_run))
               /\ de_document_id m = js "doc-1".
Proof.
  split; [split; [vm_compute; reflexivity|] | split; [vm_compute; reflexivity|]].
  - apply (@encrypted_document_has_metadata Sim.platform
             {| sys_db := db_encrypted; sys_workers := [] |}
             (run_schedule [0; 1; 0; 1] (two_callers db_encrypted)) eq_refl)
      with (d := {| doc_id := js "doc-1";
                    doc_file_path := js "documents/0.42.txt";
                    doc_status := js "encrypted";
                    doc_processed_at := Some 1003%N |}).
    + intros d [E | []] _. subst d. eexists. split; [left; reflexivity|].
      reflexivity.
    + apply run_schedule_reachable.
      eapply reach_step;
        [eapply reach_step; [apply reach_refl|]|].
      * apply (@sys_arrive Sim.platform
                 {| sys_db := db_encrypted; sys_workers := [] |}
                 sample_env (Some 0)).
      * apply (@sys_arrive Sim.platform
                 {| sys_db := db_encrypted;
                    sys_workers := [(sample_env, @start Sim.platform (Some 0))] |}
                 sample_env (Some 100)).
    + replace (documents
                 (sys_db (run_schedule [0; 1; 0; 1] (two_callers db_encrypted))))
        with (documents db_encrypted) by (vm_compute; reflexivity).
      left. reflexivity.
    + reflexivity.
  - apply (@encrypted_document_has_metadata Sim.platform
             {| sys_db := Sample.db (js "pending"); sys_workers := [] |}
             sample_run eq_refl)
      with (d := {| doc_id := js "doc-1";
                    doc_file_path := js "documents/0.42.txt";
                    doc_status := js "encrypted";
                    doc_processed_at := Some 1003%N |}).
    + intros d [E | []] Hstatus. subst d. discriminate Hstatus.
    + unfold sample_run. apply run_schedule_reachable.
      eapply reach_step; [apply reach_refl|].
      apply (@sys_arrive Sim.platform
               {| sys_db := Sample.db (js "pending"); sys_workers := [] |}
               sample_env (Some 0)).
    + replace (documents (sys_db sample_run))
        with [{| doc_id := js "doc-1";
                 doc_file_path := js "documents/0.42.txt";
                 doc_status := js "encrypted";
                 doc_processed_at := Some 1003%N |}]
        by (vm_compute; reflexivity).
      left. reflexivity.
    + reflexivity.
Defined.

End ProcessorFacts.

(** ** The AI provider factory *)
Module RagFacts.
Import JS Rag JSFacts.

(** C10. For every provider name that, compared without regard to case,
    is neither 'openai' nor 'gemini' (unknown and empty names included),
    [AIProviderFactory.create] returns the OpenAI provider; being a total
    function of the name, it raises no error on any name. *)
Theorem create_falls_back_to_OpenAI (e : DenoEnv) (provider : jsstring) :
  toLowerCase provider <> js "openai" ->
  toLowerCase provider <> js "gemini" ->
  create e provider = new_OpenAIProvider e.
Proof.
  intros _ Hgemini. unfold create.
  destruct (jseqb (toLowerCase provider) (js "openai")); [reflexivity|].
  apply jseqb_neq in Hgemini. rewrite Hgemini. reflexivity.
Qed.

Lemma create_falls_back_to_OpenAI_witness :
  create {| OPENAI_API_KEY := Some (js "sk-test"); GEMINI_API_KEY := None |} []
  = OpenAIProvider (js "sk-test")
  /\ create {| OPENAI_API_KEY := Some (js "sk-test"); GEMINI_API_KEY := None |}
            (js "Mistral")
     = OpenAIProvider (js "sk-test").
Proof.
  split.
  - apply (create_falls_back_to_OpenAI
             {| OPENAI_API_KEY := Some (js "sk-test"); GEMINI_API_KEY := None |} []);
      vm_compute; discriminate.
  - apply (create_falls_back_to_OpenAI
             {| OPENAI_API_KEY := Some (js "sk-test"); GEMINI_API_KEY := None |}
             (js "Mistral"));
      vm_compute; discriminate.
Defined.

(** The two names the switch knows, in any letter case. *)
Lemma create_known_names (e : DenoEnv) :
  create e (js "OpenAI") = new_OpenAIProvider e
  /\ create e (js "GEMINI") = new_GeminiProvider e.
Proof. split; reflexivity. Qed.

End RagFacts.

(** * Further properties of the code *)

(** ** KMSService: encodings, errors, and what the stored fields allow *)
Module KMSExtras.
Import JS KMS JSFacts KMSFacts.
Local Open Scope js_scope.

(** A code unit that [parseInt] can do nothing with at the start of a
    chunk: no digit of radix 16, no sign, no white space. *)
Definition is_junk (c : N) : Prop :=
  hex_value c = None /\ is_whitespace c = false /\ c <> 45%N /\ c <> 43%N.

Lemma hex_chunks_length (hex : jsstring) :
  length (hex_chunks hex) = (length hex + 1) / 2.
Proof.
  assert (G : forall n hex, length hex <= n ->
                            length (hex_chunks hex) = (length hex + 1) / 2).
  { induction n as [|n IH]; intros [|c1 [|c2 rest]] Hn; cbn [length] in *;
      try reflexivity; try lia.
    cbn [hex_chunks length]. rewrite IH by lia.
    replace (S (S (length rest)) + 1) with (length rest + 1 + 1 * 2) by lia.
    rewrite Nat.div_add by lia. lia. }
  apply (G (length hex)). lia.
Qed.

Lemma hexToUint8Array_length (hex : jsstring) :
  length (hexToUint8Array hex) = length hex / 2.
Proof.
  unfold hexToUint8Array.
  rewrite length_firstn, length_map, hex_chunks_length.
  apply Nat.min_l. apply Nat.Div0.div_le_mono. lia.
Qed.

Lemma hex_chunks_app (hex tail : jsstring) :
  Nat.even (length hex) = true ->
  hex_chunks (hex ++ tail) = hex_chunks hex ++ hex_chunks tail.
Proof.
  assert (G : forall n hex, length hex <= n -> Nat.even (length hex) = true ->
                            hex_chunks (hex ++ tail) = hex_chunks hex ++ hex_chunks tail).
  { induction n as [|n IH]; intros [|c1 [|c2 rest]] Hn He; cbn [length] in *;
      try reflexivity; try discriminate; try lia.
    cbn [app hex_chunks]. rewrite IH; [reflexivity | lia | exact He]. }
  apply (G (length hex)). lia.
Qed.

(** X1. The two hexadecimal helpers are inverse on byte arrays:
    [uint8ArrayToHex] writes two lowercase digits per byte, and
    [hexToUint8Array] reads the bytes back. *)
Theorem hex_helpers_round_trip (bytes : list byte) :
  hexToUint8Array (uint8ArrayToHex bytes) = bytes
  /\ length (uint8ArrayToHex bytes) = 2 * length bytes
  /\ Forall (fun c => is_lower_hex c = true) (uint8ArrayToHex bytes).
Proof.
  split; [apply hexToUint8Array_uint8ArrayToHex|].
  split; [apply uint8ArrayToHex_length | apply uint8ArrayToHex_lower_hex].
Qed.

(** X2. [hexToUint8Array] returns [hex.length / 2] bytes, rounded down:
    the last character of a text of odd length is read but its byte falls
    outside the array and is dropped. *)
Theorem hexToUint8Array_drops_odd_character (hex : jsstring) :
  length (hexToUint8Array hex) = length hex / 2
  /\ (Nat.even (length hex) = true ->
      forall c, hexToUint8Array (hex ++ [c]) = hexToUint8Array hex).
Proof.
  split; [apply hexToUint8Array_length|].
  intros He c. unfold hexToUint8Array.
  rewrite hex_chunks_app by exact He. rewrite map_app, length_app.
  cbn [length].
  assert (Hhalf : (length hex + 1) / 2 = length hex / 2).
  { apply Nat.even_spec in He. destruct He as [k Hk]. rewrite Hk.
    rewrite (Nat.mul_comm 2 k), Nat.div_add_l, Nat.div_mul by lia.
    cbn. lia. }
  rewrite Hhalf.
  assert (Hlen : length (map (fun chunk => toUint8 (parseInt16 chunk))
                             (hex_chunks hex)) = length hex / 2).
  { rewrite length_map, hex_chunks_length. exact Hhalf. }
  rewrite firstn_app, Hlen, Nat.sub_diag. cbn [firstn]. rewrite app_nil_r.
  reflexivity.
Qed.

Lemma hexToUint8Array_drops_odd_character_witness :
  hexToUint8Array (js "0aff" ++ js "7") = hexToUint8Array (js "0aff")
  /\ hexToUint8Array (js "0aff7") = [x0a; xff].
Proof.
  split.
  - apply (proj2 (hexToUint8Array_drops_odd_character (js "0aff")) eq_refl).
  - reflexivity.
Defined.

Lemma sign_of_junk (c : N) (r : jsstring) :
  c <> 45%N -> c <> 43%N ->
  match c with
  | 45%N => (true, r)
  | 43%N => (false, r)
  | _ => (false, c :: r)
  end = (false, c :: r).
Proof.
  intros H45 H43. destruct c as [|p]; [reflexivity|].
  repeat (try reflexivity;
          try (exfalso; apply H45; reflexivity);
          try (exfalso; apply H43; reflexivity);
          destruct p as [p|p|]).
Qed.

Lemma strip_0x_not_zero (c : N) (r : jsstring) :
  c <> 48%N -> strip_0x (c :: r) = c :: r.
Proof.
  intros H48. unfold strip_0x. destruct c as [|p]; [reflexivity|].
  repeat (try reflexivity;
          try (exfalso; apply H48; reflexivity);
          destruct p as [p|p|]).
Qed.

Lemma parseInt16_junk (c : N) (r : jsstring) :
  is_junk c -> parseInt16 (c :: r) = None.
Proof.
  intros (Hhex & Hws & H45 & H43). unfold parseInt16.
  cbn [skip_whitespace]. rewrite Hws.
  match goal with
  | |- (let '(_, _) := ?m in _) = _ =>
      assert (E : m = (false, c :: r)) by (apply sign_of_junk; assumption);
      rewrite E
  end.
  rewrite strip_0x_not_zero by (intros ->; discriminate Hhex).
  cbn [hex_prefix]. rewrite Hhex. reflexivity.
Qed.

Lemma junk_chunks_are_zero (hex : jsstring) :
  Forall is_junk hex ->
  map (fun chunk => toUint8 (parseInt16 chunk)) (hex_chunks hex)
  = repeat x00 (length (hex_chunks hex)).
Proof.
  assert (G : forall n hex, length hex <= n -> Forall is_junk hex ->
              map (fun chunk => toUint8 (parseInt16 chunk)) (hex_chunks hex)
              = repeat x00 (length (hex_chunks hex))).
  { induction n as [|n IH]; intros [|c1 [|c2 rest]] Hn Hj; cbn [length] in *;
      try reflexivity; try lia.
    - inversion Hj; subst. cbn [hex_chunks map length repeat].
      rewrite parseInt16_junk by assumption. reflexivity.
    - inversion Hj as [|? ? H1 Hj']; subst. inversion Hj'; subst.
      cbn [hex_chunks map length repeat].
      rewrite parseInt16_junk by assumption. rewrite IH by (assumption || lia).
      reflexivity. }
  apply (G (length hex)). lia.
Qed.

Lemma firstn_of_repeat {A} (x : A) (n m : nat) :
  firstn n (repeat x m) = repeat x (Nat.min n m).
Proof.
  revert m. induction n as [|n IH]; intros [|m]; cbn [firstn repeat Nat.min];
    try reflexivity.
  rewrite IH. reflexivity.
Qed.

(** X3. [hexToUint8Array] validates nothing: a text without a single
    hexadecimal digit (and without signs or white space) is not refused,
    every [parseInt] gives NaN and the result is an array of zero bytes. *)
Theorem hexToUint8Array_of_junk_is_zeros (hex : jsstring) :
  Forall is_junk hex ->
  hexToUint8Array hex = repeat x00 (length hex / 2).
Proof.
  intros Hj. unfold hexToUint8Array.
  rewrite junk_chunks_are_zero by exact Hj.
  rewrite firstn_of_repeat, hex_chunks_length.
  f_equal. apply Nat.min_l. apply Nat.Div0.div_le_mono. lia.
Qed.

Lemma hexToUint8Array_of_junk_is_zeros_witness :
  hexToUint8Array (js "ghostly!") = [x00; x00; x00; x00].
Proof.
  apply (hexToUint8Array_of_junk_is_zeros (js "ghostly!")).
  repeat constructor; vm_compute; discriminate.
Defined.

Section Platform.
Context {P : WebPlatform}.

(** A number or a boolean. *)
Definition is_scalar (v : json) : bool :=
  match v with
  | JNumber _ | JBool _ => true
  | _ => false
  end.

(** X4. What [decryptDEK] answers to texts it cannot unwrap.  A text that
    is not JSON gives the SyntaxError of [JSON.parse], and the text [null]
    a TypeError.  Any other value under a malformed master secret gives
    [importKey]'s DataError, before [iv] is looked at.  Under a
    well-formed secret: a value without [iv], or with the [iv] [null],
    gives a TypeError; an [iv] that is a number or a boolean is not
    refused but read as the empty nonce; and a wrapped key with two texts
    gives the OperationError of [crypto.subtle.decrypt] when AES-GCM
    rejects it, otherwise the decoded plaintext. *)
Theorem decryptDEK_error_surface (kms : KMSService) (encryptedDEK : jsstring) :
  (JSON_parse encryptedDEK = None ->
   decryptDEK kms encryptedDEK = Throw SyntaxError)
  /\ (JSON_parse encryptedDEK = Some JNull ->
      decryptDEK kms encryptedDEK = Throw TypeError)
  /\ (forall v,
        JSON_parse encryptedDEK = Some v -> v <> JNull ->
        length (master_key_bytes kms) <> 32 ->
        decryptDEK kms encryptedDEK = Throw DataError)
  /\ (forall v,
        JSON_parse encryptedDEK = Some v -> v <> JNull ->
        length (master_key_bytes kms) = 32 ->
        get_property v (js "iv") = None
        \/ get_property v (js "iv") = Some JNull ->
        decryptDEK kms encryptedDEK = Throw TypeError)
  /\ (forall members iv encrypted,
        JSON_parse encryptedDEK = Some (JObject members) ->
        length (master_key_bytes kms) = 32 ->
        member (js "iv") members = Some iv -> is_scalar iv = true ->
        member (js "encrypted") members = Some (JString encrypted) ->
        decryptDEK kms encryptedDEK
        = match aes_gcm_decrypt (master_key_bytes kms) []
                  (hexToUint8Array encrypted) with
          | Some dekBytes => Ok (utf8_decode dekBytes)
          | None => Throw OperationError
          end)
  /\ (forall encrypted iv,
        JSON_parse encryptedDEK = Some (wrapped_object encrypted iv) ->
        length (master_key_bytes kms) = 32 ->
        decryptDEK kms encryptedDEK
        = match aes_gcm_decrypt (master_key_bytes kms)
                  (hexToUint8Array iv) (hexToUint8Array encrypted) with
          | Some dekBytes => Ok (utf8_decode dekBytes)
          | None => Throw OperationError
          end).
Proof.
  assert (Hparsed : forall v, v <> JNull ->
            match v with
            | JNull => Throw TypeError
            | _ => Ok v
            end = Ok v).
  { intros v Hv. destruct v; try reflexivity. contradiction Hv. reflexivity. }
  repeat split.
  - intros H. unfold decryptDEK. rewrite H. reflexivity.
  - intros H. unfold decryptDEK. rewrite H. reflexivity.
  - intros v H Hv Hm. unfold decryptDEK. rewrite H, (Hparsed v Hv). cbn [bind].
    rewrite (importKey_master_malformed kms _ Hm). reflexivity.
  - intros v H Hv Hm Hiv. unfold decryptDEK.
    rewrite H, (Hparsed v Hv). cbn [bind].
    rewrite (importKey_32 _ _ Hm). cbn [bind].
    destruct Hiv as [-> | ->]; reflexivity.
  - intros members iv encrypted H Hm Hiv Hs Henc. unfold decryptDEK.
    rewrite H. cbn [bind]. rewrite (importKey_32 _ _ Hm). cbn [bind].
    unfold get_property. rewrite Hiv, Henc.
    destruct iv; try discriminate Hs; cbn [hexToUint8Array_of bind];
      unfold subtle_decrypt; cbn [key_usage_of key_data];
      destruct (aes_gcm_decrypt _ _ _); reflexivity.
  - intros encrypted iv H Hm. unfold decryptDEK. rewrite H.
    unfold wrapped_object at 1. cbn [bind].
    rewrite (importKey_32 _ _ Hm). cbn [bind].
    unfold wrapped_object, get_property. cbn [member].
    rewrite !jseqb_refl.
    replace (jseqb (js "encrypted") (js "iv")) with false by reflexivity.
    cbn [hexToUint8Array_of bind]. unfold subtle_decrypt.
    cbn [key_usage_of key_data].
    destruct (aes_gcm_decrypt _ _ _); reflexivity.
Qed.

(** X6. [encryptFile] fails with [importKey]'s DataError, before any nonce
    is drawn, whenever the DEK text does not stand for 16, 24 or 32 bytes,
    that is, unless it is 32/33, 48/49 or 64/65 characters long. *)
Theorem encryptFile_rejects_key_length (data : list byte) (dek : jsstring)
  (rng : Rng) :
  length dek / 2 <> 16 -> length dek / 2 <> 24 -> length dek / 2 <> 32 ->
  encryptFile data dek rng = Throw DataError.
Proof.
  intros H16 H24 H32. unfold encryptFile, importKey.
  rewrite hexToUint8Array_length.
  replace (length dek / 2 =? 16) with false by (symmetry; apply Nat.eqb_neq; lia).
  replace (length dek / 2 =? 24) with false by (symmetry; apply Nat.eqb_neq; lia).
  replace (length dek / 2 =? 32) with false by (symmetry; apply Nat.eqb_neq; lia).
  reflexivity.
Qed.

Lemma master_key_bytes_firstn (kms : KMSService) :
  master_key_bytes kms
  = utf8_encode (firstn 32 (padEnd 32 (js "0") (masterKey kms))).
Proof.
  unfold master_key_bytes. change 32%Z with (Z.of_nat 32).
  rewrite slice_prefix. reflexivity.
Qed.

Lemma decryptDEK_same_key (kms1 kms2 : KMSService) (encryptedDEK : jsstring) :
  master_key_bytes kms1 = master_key_bytes kms2 ->
  decryptDEK kms1 encryptedDEK = decryptDEK kms2 encryptedDEK.
Proof. intros H. unfold decryptDEK. rewrite H. reflexivity. Qed.

(** X7. Only the first 32 characters of the master secret count, and a
    short secret is filled up with the character '0': a secret of 32
    characters or more followed by anything, and a shorter secret followed
    by a '0', are the same key as the secret itself, so what one wraps the
    other unwraps. *)
Theorem master_secret_padded_and_truncated (secret : jsstring) :
  (32 <= length secret ->
   forall extra encryptedDEK,
     master_key_bytes {| masterKey := secret ++ extra |}
     = master_key_bytes {| masterKey := secret |}
     /\ decryptDEK {| masterKey := secret ++ extra |} encryptedDEK
        = decryptDEK {| masterKey := secret |} encryptedDEK)
  /\ (length secret < 32 ->
      forall encryptedDEK,
        master_key_bytes {| masterKey := secret ++ js "0" |}
        = master_key_bytes {| masterKey := secret |}
        /\ decryptDEK {| masterKey := secret ++ js "0" |} encryptedDEK
           = decryptDEK {| masterKey := secret |} encryptedDEK).
Proof.
  split.
  - intros Hlen extra encryptedDEK.
    assert (E : master_key_bytes {| masterKey := secret ++ extra |}
                = master_key_bytes {| masterKey := secret |}).
    { rewrite !master_key_bytes_firstn. cbn [masterKey]. unfold padEnd.
      rewrite length_app.
      replace (length secret + length extra <? 32) with false
        by (symmetry; apply Nat.ltb_ge; lia).
      replace (length secret <? 32) with false
        by (symmetry; apply Nat.ltb_ge; lia).
      rewrite firstn_app.
      replace (32 - length secret) with 0 by lia.
      cbn [firstn]. rewrite app_nil_r. reflexivity. }
    split; [exact E | apply decryptDEK_same_key; exact E].
  - intros Hlen encryptedDEK.
    assert (E : master_key_bytes {| masterKey := secret ++ js "0" |}
                = master_key_bytes {| masterKey := secret |}).
    { rewrite !master_key_bytes_firstn. cbn [masterKey].
      change (js "0") with [48%N]. unfold padEnd.
      rewrite length_app. cbn [length].
      replace (length secret <? 32) with true
        by (symmetry; apply Nat.ltb_lt; lia).
      rewrite !pad_fill_single.
      destruct (length secret + 1 <? 32) eqn:E1.
      + apply Nat.ltb_lt in E1. rewrite <- app_assoc. cbn [app].
        replace (32 - length secret) with (S (32 - (length secret + 1))) by lia.
        reflexivity.
      + apply Nat.ltb_ge in E1.
        replace (32 - length secret) with 1 by lia. reflexivity. }
    split; [exact E | apply decryptDEK_same_key; exact E].
Qed.

Context {L : WebPlatformLaws P}.

(** X5. The three fields [encryptFile] returns are enough to decrypt:
    for a 256-bit DEK, AES-GCM under the same key, with the nonce read
    back from [iv], applied to the ciphertext followed by the tag read
    back from [authTag], gives the original data. *)
Theorem encryptFile_fields_decrypt (data key nonce : list byte)
  (rng rng' : Rng) :
  length key = 32 ->
  getRandomValues 12 rng = Ok (nonce, rng') ->
  exists r,
    encryptFile data (uint8ArrayToHex key) rng = Ok (r, rng')
    /\ aes_gcm_decrypt (hexToUint8Array (uint8ArrayToHex key))
         (hexToUint8Array (iv r))
         (encryptedData r ++ hexToUint8Array (authTag r))
       = Some data.
Proof.
  intros Hkey Hrng.
  pose proof (aes_gcm_encrypt_length key nonce data) as Hlen.
  unfold encryptFile.
  rewrite hexToUint8Array_uint8ArrayToHex, (importKey_32 _ _ Hkey).
  cbn [bind]. rewrite Hrng. cbn [bind].
  unfold subtle_encrypt. cbn [key_usage_of key_data bind].
  eexists. split; [reflexivity|].
  cbn [iv encryptedData authTag].
  rewrite !hexToUint8Array_uint8ArrayToHex.
  rewrite slice_tail, slice_front by lia.
  rewrite firstn_skipn. apply aes_gcm_decrypt_encrypt.
Qed.

End Platform.

Lemma decryptDEK_error_surface_witness :
  @decryptDEK Sim.platform (constructor None) [] = Throw SyntaxError
  /\ @decryptDEK Sim.platform (constructor (Some [322%N])) [0%N]
     = Throw DataError
  /\ @decryptDEK Sim.platform (constructor None) [12%N] = Throw OperationError
  /\ @decryptDEK Sim.platform (constructor None) [0%N] = Throw OperationError.
Proof.
  destruct (@decryptDEK_error_surface Sim.platform (constructor None) [])
    as [Hsyntax _].
  destruct (@decryptDEK_error_surface Sim.platform
              (constructor (Some [322%N])) [0%N])
    as [_ [_ [Hdata _]]].
  destruct (@decryptDEK_error_surface Sim.platform (constructor None) [12%N])
    as [_ [_ [_ [_ [Hscalar _]]]]].
  destruct (@decryptDEK_error_surface Sim.platform (constructor None) [0%N])
    as [_ [_ [_ [_ [_ Hwrapped]]]]].
  split; [apply Hsyntax; reflexivity|].
  split; [apply (Hdata (wrapped_object [] [])); [reflexivity|discriminate|];
          vm_compute; discriminate|].
  split.
  - apply (Hscalar [(js "encrypted", JString []); (js "iv", JNumber 12)]
             (JNumber 12) []); reflexivity.
  - apply (Hwrapped [] []); reflexivity.
Defined.

Lemma encryptFile_rejects_key_length_witness :
  @encryptFile Sim.platform Sample.plaintext (js "0011223344") (Some 0)
  = Throw DataError.
Proof.
  apply (@encryptFile_rejects_key_length Sim.platform);
    vm_compute; discriminate.
Defined.

Lemma master_secret_padded_and_truncated_witness :
  master_key_bytes {| masterKey := js "0123456789abcdef0123456789abcdef-rest" |}
  = master_key_bytes {| masterKey := js "0123456789abcdef0123456789abcdef" |}
  /\ master_key_bytes {| masterKey := js "secret0" |}
     = master_key_bytes {| masterKey := js "secret" |}.
Proof.
  split.
  - apply (proj1 (@master_secret_padded_and_truncated Sim.platform
                    (js "0123456789abcdef0123456789abcdef"))
                 ltac:(vm_compute; lia) (js "-rest") []).
  - apply (proj2 (@master_secret_padded_and_truncated Sim.platform (js "secret"))
                 ltac:(vm_compute; lia) []).
Defined.

Lemma encryptFile_fields_decrypt_witness :
  exists r,
    @encryptFile Sim.platform Sample.plaintext
      (uint8ArrayToHex (Sim.sim_bytes 32 0)) (Some 32)
    = Ok (r, Some 44)
    /\ @aes_gcm_decrypt Sim.platform
         (hexToUint8Array (uint8ArrayToHex (Sim.sim_bytes 32 0)))
         (hexToUint8Array (iv r))
         (encryptedData r ++ hexToUint8Array (authTag r))
       = Some Sample.plaintext.
Proof.
  exact (@encryptFile_fields_decrypt Sim.platform sim_laws Sample.plaintext
           (Sim.sim_bytes 32 0) (Sim.sim_bytes 12 32) (Some 32) (Some 44)
           eq_refl eq_refl).
Defined.

End KMSExtras.

(** ** The request handler: what every run keeps *)
Module ProcessorExtras.
Import JS KMS Processor JSFacts KMSFacts ProcessorFacts.
Local Open Scope js_scope.

(** The columns of a task that no update of the handler names. *)
Definition task_identity (qi : QueueItem) :=
  (qi_id qi, qi_document_id qi, qi_task_type qi, qi_task_data qi,
   qi_error_message qi).

(** The plaintext bucket is as it was and every object of the encrypted
    bucket is still there, unchanged. *)
Definition storage_kept (before after : Database) : Prop :=
  storage_documents after = storage_documents before
  /\ forall path bytes,
       bucket_get (storage_encrypted_documents before) path = Some bytes ->
       bucket_get (storage_encrypted_documents after) path = Some bytes.

(** No row was removed or inserted in between: tasks and documents are the
    same rows (up to the columns an update names), key records and
    encryption metadata were only appended. *)
Definition rows_kept (before after : Database) : Prop :=
  map task_identity (processing_queue after)
  = map task_identity (processing_queue before)
  /\ map (fun d => (doc_id d, doc_file_path d)) (documents after)
     = map (fun d => (doc_id d, doc_file_path d)) (documents before)
  /\ (exists new, encryption_keys after = encryption_keys before ++ new)
  /\ (exists new, document_encryption after = document_encryption before ++ new).

(** What a success answer names: the metadata row of a document with the
    encrypted path, the object stored at that path, and the key record. *)
Definition artefacts (db : Database) (encryptedPath keyId : jsstring) : Prop :=
  (exists m, In m (document_encryption db)
             /\ de_encrypted_path m = encryptedPath)
  /\ (exists bytes,
        bucket_get (storage_encrypted_documents db) encryptedPath = Some bytes)
  /\ (exists k, In k (encryption_keys db) /\ ek_key_id k = keyId).

Ltac project_tables :=
  cbn [fst snd processing_queue documents encryption_keys document_encryption
       storage_documents storage_encrypted_documents with_processing_queue
       with_documents with_encryption_keys with_document_encryption
       with_storage_encrypted_documents].

Lemma bucket_get_app_l (b : Bucket) (path : jsstring) (bytes : list byte)
  (more : Bucket) :
  bucket_get b path = Some bytes -> bucket_get (b ++ more) path = Some bytes.
Proof.
  induction b as [|[p x] b IH]; cbn [bucket_get app]; [discriminate|].
  destruct (jseqb p path); auto.
Qed.

Lemma bucket_get_app_new (b : Bucket) (path : jsstring) (bytes : list byte) :
  bucket_get b path = None ->
  bucket_get (b ++ [(path, bytes)]) path = Some bytes.
Proof.
  induction b as [|[p x] b IH]; cbn [bucket_get app].
  - rewrite jseqb_refl. reflexivity.
  - destruct (jseqb p path); [discriminate | exact IH].
Qed.

Section Frame.
Context {P : WebPlatform}.

Lemma storage_kept_refl (db : Database) : storage_kept db db.
Proof. split; auto. Qed.

Lemma storage_kept_trans (a b c : Database) :
  storage_kept a b -> storage_kept b c -> storage_kept a c.
Proof. intros [H1 H2] [H3 H4]. split; [congruence | auto]. Qed.

Lemma step_storage_kept (env : Env) (w : Worker) (db : Database) :
  storage_kept db (snd (step env w db)).
Proof.
  destruct w as [p rng].
  destruct p; unfold_steps; cbn [w_pc w_rng];
    repeat break_match; try discriminate; invert_equations;
    cbn [snd]; try apply storage_kept_refl;
    split;
    cbn [storage_documents storage_encrypted_documents with_processing_queue
         with_documents with_encryption_keys with_document_encryption
         with_storage_encrypted_documents];
    auto using bucket_get_app_l.
Qed.

Lemma rows_kept_refl (db : Database) : rows_kept db db.
Proof.
  repeat split; try (exists []; rewrite app_nil_r; reflexivity).
Qed.

Lemma rows_kept_trans (a b c : Database) :
  rows_kept a b -> rows_kept b c -> rows_kept a c.
Proof.
  intros (H1 & H2 & [k1 H3] & [m1 H4]) (H5 & H6 & [k2 H7] & [m2 H8]).
  repeat split; try congruence.
  - exists (k1 ++ k2). rewrite H7, H3, app_assoc. reflexivity.
  - exists (m1 ++ m2). rewrite H8, H4, app_assoc. reflexivity.
Qed.

Lemma map_map_same {A B} (f : A -> B) (g : A -> A) (l : list A) :
  (forall x, f (g x) = f x) -> map f (map g l) = map f l.
Proof.
  intros H. rewrite map_map. apply map_ext. exact H.
Qed.

Lemma step_rows_kept (env : Env) (w : Worker) (db : Database) :
  rows_kept db (snd (step env w db)).
Proof.
  destruct w as [p rng].
  destruct p; unfold_steps; cbn [w_pc w_rng];
    repeat break_match; try discriminate; invert_equations;
    cbn [snd]; try apply rows_kept_refl;
    unfold rows_kept;
    cbn [processing_queue documents encryption_keys document_encryption
         with_processing_queue with_documents with_encryption_keys
         with_document_encryption with_storage_encrypted_documents];
    repeat split;
    try (exists []; rewrite app_nil_r; reflexivity);
    try (eexists; reflexivity);
    apply map_map_same; intros x; destruct (jseqb _ _); reflexivity.
Qed.

Lemma sys_step_kept (s s' : System) :
  sys_step s s' ->
  storage_kept (sys_db s) (sys_db s') /\ rows_kept (sys_db s) (sys_db s').
Proof.
  intros [s1 env rng | s1 i env w Hnth]; cbn [sys_db].
  - split; [apply storage_kept_refl | apply rows_kept_refl].
  - split; [apply step_storage_kept | apply step_rows_kept].
Qed.

(** X8. Whatever invocations run and however they interleave, the
    uploaded plaintext objects are never written, removed or replaced, and
    an object once stored in the encrypted bucket is never overwritten. *)
Theorem storage_is_never_overwritten (s0 s : System) :
  reachable s0 s ->
  storage_documents (sys_db s) = storage_documents (sys_db s0)
  /\ forall path bytes,
       bucket_get (storage_encrypted_documents (sys_db s0)) path = Some bytes ->
       bucket_get (storage_encrypted_documents (sys_db s)) path = Some bytes.
Proof.
  induction 1 as [|s s' _ IH Hstep]; [apply storage_kept_refl|].
  eapply storage_kept_trans; [exact IH|]. apply sys_step_kept. exact Hstep.
Qed.

(** X9. No interleaving of invocations inserts or deletes a task or a
    document: the tasks keep their id, document, type, payload and
    [error_message], the documents their id and file path; key records and
    encryption metadata are only ever appended. *)
Theorem rows_are_only_appended (s0 s : System) :
  reachable s0 s ->
  map task_identity (processing_queue (sys_db s))
  = map task_identity (processing_queue (sys_db s0))
  /\ map (fun d => (doc_id d, doc_file_path d)) (documents (sys_db s))
     = map (fun d => (doc_id d, doc_file_path d)) (documents (sys_db s0))
  /\ (exists new,
        encryption_keys (sys_db s) = encryption_keys (sys_db s0) ++ new)
  /\ (exists new,
        document_encryption (sys_db s) = document_encryption (sys_db s0) ++ new).
Proof.
  induction 1 as [|s s' _ IH Hstep]; [apply rows_kept_refl|].
  eapply rows_kept_trans; [exact IH|]. apply sys_step_kept. exact Hstep.
Qed.

End Frame.

(** *** What a success answer guarantees *)

Section Answer.
Context {P : WebPlatform}.

(** What the invocation has already stored, by the call it is about to
    make. *)
Definition stored_so_far (w : Worker) (db : Database) : Prop :=
  match w_pc w with
  | PcUpload _ _ _ keyId _ =>
      exists k, In k (encryption_keys db) /\ ek_key_id k = keyId
  | PcStoreMetadata _ _ _ keyId _ _ encryptedPath =>
      (exists k, In k (encryption_keys db) /\ ek_key_id k = keyId)
      /\ (exists bytes,
            bucket_get (storage_encrypted_documents db) encryptedPath
            = Some bytes)
  | PcUpdateDocument _ _ _ keyId encryptedPath
  | PcComplete _ _ _ keyId encryptedPath => artefacts db encryptedPath keyId
  | PcDone response _ =>
      match resp_body response with
      | BodySuccess _ encryptedPath keyId => artefacts db encryptedPath keyId
      | _ => True
      end
  | _ => True
  end.

Lemma step_stored_so_far (env : Env) (w : Worker) (db : Database) :
  stored_so_far w db ->
  stored_so_far (fst (step env w db)) (snd (step env w db)).
Proof.
  destruct w as [p rng]. intros H.
  destruct p; unfold_steps; cbn [w_pc w_rng];
    repeat break_match; try discriminate; invert_equations;
    cbn [fst snd]; unfold stored_so_far, artefacts in *;
    cbn [w_pc resp_body] in *; project_tables; try exact I; try exact H.
  - (* the key record has just been inserted *)
    eexists. split; [apply in_or_app; right; left; reflexivity | reflexivity].
  - (* the object has just been uploaded *)
    split; [exact H|]. eexists. apply bucket_get_app_new. assumption.
  - (* the metadata row has just been inserted *)
    destruct H as [Hk Hb]. repeat split; try assumption.
    eexists. split; [apply in_or_app; right; left; reflexivity | reflexivity].
Qed.

(** X13. A success answer is never given for nothing: whenever the handler
    answers with [encryptedPath] and [keyId], the database it leaves holds
    a metadata row with that path, an object stored at that path, and a
    key record with that key id. *)
Theorem success_answer_names_stored_artefacts (env : Env) (rng : Rng)
  (db : Database) (status : N) (message encryptedPath keyId : jsstring) :
  response_of (fst (handler env rng db))
  = Some {| resp_status := status;
            resp_body := BodySuccess message encryptedPath keyId |} ->
  (exists m, In m (document_encryption (snd (handler env rng db)))
             /\ de_encrypted_path m = encryptedPath)
  /\ (exists bytes,
        bucket_get (storage_encrypted_documents (snd (handler env rng db)))
                   encryptedPath = Some bytes)
  /\ (exists k, In k (encryption_keys (snd (handler env rng db)))
                /\ ek_key_id k = keyId).
Proof.
  assert (G : forall n w db',
             stored_so_far w db' ->
             stored_so_far (fst (run n env w db')) (snd (run n env w db'))).
  { induction n as [|n IH]; intros w db' H; [exact H|].
    rewrite run_S. apply IH. apply step_stored_so_far. exact H. }
  intros Hresp. specialize (G 9 (start rng) db I).
  unfold handler in *. unfold response_of in Hresp.
  unfold stored_so_far in G.
  destruct (w_pc (fst (run 9 env (start rng) db))); try discriminate.
  inversion Hresp; subst. exact G.
Qed.

(** X16. A request the handler turns away at once: the CORS preflight is
    answered 200 with no body, and a body whose [documentId] is absent or
    the empty string is answered 500 "Document ID is required"; in both
    cases before anything is read from or written to the database. *)
Theorem request_turned_away (env : Env) (rng : Rng) (db : Database) :
  (jseqb (method (request env)) (js "OPTIONS") = true ->
   handler env rng db
   = ({| w_pc := PcDone {| resp_status := 200; resp_body := BodyNull |}
                        {| mem_fileBytes := None; mem_dek := None |};
         w_rng := rng |}, db))
  /\ (jseqb (method (request env)) (js "OPTIONS") = false ->
      (json_documentId (request env) = Some None
       \/ json_documentId (request env) = Some (Some [])) ->
      handler env rng db
      = ({| w_pc := catch (js "Document ID is required") None None;
            w_rng := rng |}, db)).
Proof.
  split.
  - intros H. unfold handler. rewrite run_S, step_at_start. cbn [fst snd].
    unfold step_start. rewrite H. eapply run_done. reflexivity.
  - intros H [E | E]; unfold handler; rewrite run_S, step_at_start;
      cbn [fst snd]; unfold step_start; rewrite H, E; cbn [falsy];
      eapply run_done; reflexivity.
Qed.

End Answer.

(** *** The extras on the sample data *)

(** Two callers, run to their end, on the database in which the document
    is already encrypted. *)
Definition settled_system : @System Sim.platform :=
  run_schedule [0; 1; 0; 1] (two_callers db_encrypted).

Lemma settled_system_reachable :
  reachable (two_callers db_encrypted) settled_system.
Proof. apply run_schedule_reachable. apply reach_refl. Qed.

Lemma storage_is_never_overwritten_witness :
  storage_documents (sys_db settled_system)
  = [(js "documents/0.42.txt", Sample.plaintext)]
  /\ bucket_get (storage_encrypted_documents (sys_db settled_system))
       (js "encrypted/doc-1_1002.enc")
     = Some [].
Proof.
  destruct (storage_is_never_overwritten _ _ settled_system_reachable)
    as [Hplain Hkept].
  split; [exact Hplain|].
  apply Hkept. reflexivity.
Defined.

Lemma rows_are_only_appended_witness :
  map task_identity (processing_queue (sys_db settled_system))
  = [task_identity (sample_task (js "completed"))]
  /\ map (fun d => (doc_id d, doc_file_path d))
       (documents (sys_db settled_system))
     = [(js "doc-1", js "documents/0.42.txt")].
Proof.
  destruct (rows_are_only_appended _ _ settled_system_reachable)
    as [Htasks [Hdocs _]].
  split; [exact Htasks | exact Hdocs].
Defined.

Lemma success_answer_names_stored_artefacts_witness :
  exists m,
    In m (document_encryption
            (snd (@handler Sim.platform (Sample.env Sample.no_fault) (Some 0)
                    (Sample.db (js "pending")))))
    /\ de_encrypted_path m = js "encrypted/doc-1_1002.enc".
Proof.
  apply (proj1 (@success_answer_names_stored_artefacts Sim.platform
                  (Sample.env Sample.no_fault) (Some 0)
                  (Sample.db (js "pending")) 200%N
                  (js "Document encrypted successfully")
                  (js "encrypted/doc-1_1002.enc") (js "key_doc-1_1001")
                  ltac:(vm_compute; reflexivity))).
Defined.

Lemma request_turned_away_witness :
  @handler Sim.platform
    {| request := {| method := js "POST"; json_documentId := Some (Some []) |};
       MASTER_ENCRYPTION_KEY := None;
       fault := Sample.no_fault;
       now := Sample.clock;
       key_uuid := js "key-row-1" |} (Some 0) Sample.db_enqueued
  = (@Build_Worker Sim.platform (catch (js "Document ID is required") None None)
       (Some 0),
     Sample.db_enqueued).
Proof.
  apply (proj2 (@request_turned_away Sim.platform _ (Some 0)
                  Sample.db_enqueued));
    [reflexivity | right; reflexivity].
Defined.

(** *** The lookup wants exactly one task *)

Section Lookup.
Context {P : WebPlatform}.

(** X22. The lookup ends in [.single()], so it succeeds only when exactly
    one task of the document is in the looked-up status: with none, and
    equally with two or more (nothing prevents several tasks per
    document), the request is answered "Queue item not found" and the
    database is left as it was. *)
Theorem lookup_needs_exactly_one_task (env : Env) (rng : Rng) (db : Database)
  (d : jsstring) :
  jseqb (method (request env)) (js "OPTIONS") = false ->
  json_documentId (request env) = Some (Some d) ->
  d <> [] ->
  length (filter (fun qi => jseqb (qi_document_id qi) d
                            && jseqb (qi_status qi) (js "pending"))
                 (processing_queue db)) <> 1 ->
  exists message,
    handler env rng db
    = ({| w_pc := catch (js "Queue item not found: " ++ message) None None;
          w_rng := rng |}, db).
Proof.
  intros Hmethod Hbody Hid Hcount.
  assert (E : exists message,
             step_start env db
             = catch (js "Queue item not found: " ++ message) None None).
  { unfold step_start. rewrite Hmethod, Hbody.
    destruct d as [|c r]; [contradiction Hid; reflexivity|].
    cbn [falsy]. unfold call.
    destruct (fault env SQueueSelect) as [m|]; [eexists; reflexivity|].
    destruct (filter _ (processing_queue db)) as [|t1 [|t2 rest]];
      cbn [single length] in *; try (eexists; reflexivity).
    contradiction Hcount. reflexivity. }
  destruct E as [message E]. exists message.
  unfold handler. rewrite run_S, step_at_start. cbn [fst snd].
  rewrite E. eapply run_done. reflexivity.
Qed.

End Lookup.

(** Nothing in the schema keeps a document from having several tasks. *)
Definition two_queued_tasks : Database :=
  snd (enqueue_document_processing (js "task-2") (js "doc-1")
         (js "document_analysis") (js "{}") Sample.db_enqueued).

Lemma lookup_needs_exactly_one_task_witness :
  map qi_status (processing_queue two_queued_tasks) = [js "queued"; js "queued"]
  /\ exists message,
       @handler Sim.platform (Sample.env Sample.no_fault) (Some 0)
         two_queued_tasks
       = (@Build_Worker Sim.platform
            (catch (js "Queue item not found: " ++ message) None None) (Some 0),
          two_queued_tasks).
Proof.
  split; [reflexivity|].
  apply (@lookup_needs_exactly_one_task Sim.platform
           (Sample.env Sample.no_fault) (Some 0) two_queued_tasks (js "doc-1"));
    try reflexivity; discriminate.
Defined.

Lemma failure_leaves_documents_and_metadata_witness :
  documents
    (snd (@handler Sim.platform (Sample.env Sample.no_fault) (Some 0)
            Sample.db_enqueued))
  = documents Sample.db_enqueued
  /\ document_encryption
       (snd (@handler Sim.platform (Sample.env Sample.no_fault) (Some 0)
               Sample.db_enqueued))
     = document_encryption Sample.db_enqueued.
Proof.
  apply (@failure_leaves_documents_and_metadata Sim.platform
           (Sample.env Sample.no_fault) (Some 0) Sample.db_enqueued
           not_found {| mem_fileBytes := None; mem_dek := None |}).
  - vm_compute. reflexivity.
  - reflexivity.
Defined.

End ProcessorExtras.

(** ** The RAG handler (ai-rag-handler) *)
Module RagHandler.
Import JS Rag.

(** What [fetch] resolves to, as far as a provider method reads it: the
    response is [ok] and the method picks its value out of the JSON body
    (or throws doing so), or the response is not [ok] and has a
    [statusText], or [fetch] itself rejects. *)
Inductive http (A : Type) : Type :=
| HttpOk (picked : result A)
| HttpNotOk (statusText : jsstring)
| HttpRejected (e : exn).
Arguments HttpOk {A} picked.
Arguments HttpNotOk {A} statusText.
Arguments HttpRejected {A} e.

(** What a database call resolves to. *)
Inductive reply (A : Type) : Type :=
| Data (data : A)
| Failed (message : jsstring).
Arguments Data {A} data.
Arguments Failed {A} message.

(** The body of the request, each property a string when present. *)
Record Body := {
  message : option jsstring;
  caseId : option jsstring;
  conversationId : option jsstring;
  aiProvider : option jsstring }.

Record Request := {
  method : jsstring;
  json : option Body }.

(** A row of [ai_conversations], with the columns of its CREATE TABLE but
    [created_at] and [updated_at]; [title] may be NULL. *)
Record Conversation := {
  conv_id : jsstring;
  conv_case_id : jsstring;
  conv_user_id : jsstring;
  conv_title : option jsstring }.

(** The [metadata] of the assistant's message; the threshold 0.7 is kept
    as the fraction 7/10. *)
Record Metadata := {
  sources_used : nat;
  meta_ai_provider : jsstring;
  similarity_threshold : N * N }.

Record Message := {
  msg_conversation_id : jsstring;
  msg_role : jsstring;
  msg_content : jsstring;
  msg_metadata : option Metadata }.

Record Database := {
  ai_conversations : list Conversation;
  ai_messages : list Message }.

(** A row returned by [search_similar_documents]. *)
Record SimilarDocument := { sd_content : jsstring }.

Inductive ResponseBody :=
| BodyNull
| BodySuccess (response conversationId : jsstring) (sourcesCount : nat)
              (aiProvider : jsstring)
| BodyError (error : jsstring).

Record Response := { resp_status : N; resp_body : ResponseBody }.

(** The two inserts into [ai_messages]. *)
Inductive site := SUserMessageInsert | SAssistantMessageInsert.

Section Handler.
(** An embedding, as the provider returns it. *)
Variable Vector : Type.

(** Everything outside the handler during one invocation: the request, the
    API keys, the two remote services behind [fetch], the database
    function [search_similar_documents], which insert into [ai_messages]
    comes back with an error, and the message with which the database
    refuses the insert into [ai_conversations]. *)
Record Env := {
  request : Request;
  keys : DenoEnv;
  fetch_embedding : AIProvider -> jsstring -> http Vector;
  fetch_completion : AIProvider -> jsstring -> list jsstring -> http jsstring;
  search_similar_documents : jsstring -> Vector -> reply (list SimilarDocument);
  fault : site -> option jsstring;
  conversation_insert_error : jsstring }.

(** The name each class puts in its error messages. *)
Definition provider_name (p : AIProvider) : jsstring :=
  match p with
  | OpenAIProvider _ => js "OpenAI"
  | GeminiProvider _ => js "Gemini"
  end.

(** [generateEmbedding] of both classes. *)
Definition generateEmbedding (env : Env) (p : AIProvider) (text : jsstring)
  : result Vector :=
  match fetch_embedding env p text with
  | HttpRejected e => Throw e
  | HttpNotOk statusText =>
      Throw (Error (provider_name p ++ js " embedding error: " ++ statusText))
  | HttpOk picked => picked
  end.

(** [generateResponse] of both classes. *)
Definition generateResponse (env : Env) (p : AIProvider) (prompt : jsstring)
  (context : list jsstring) : result jsstring :=
  match fetch_completion env p prompt context with
  | HttpRejected e => Throw e
  | HttpNotOk statusText =>
      Throw (Error (provider_name p ++ js " completion error: " ++ statusText))
  | HttpOk picked => picked
  end.

Definition falsy (v : option jsstring) : bool :=
  match v with
  | Some (_ :: _) => false
  | _ => true
  end.

Definition or_empty (v : option jsstring) : jsstring :=
  match v with
  | Some s => s
  | None => []
  end.

(** An insert into [ai_messages]: [conversation_id] references
    [ai_conversations(id)], so the row is refused when there is no such
    conversation; the handler does not look at the reply. *)
Definition insert_message (env : Env) (s : site) (m : Message) (db : Database)
  : Database :=
  match fault env s with
  | Some _ => db
  | None =>
      if existsb (fun c => jseqb (conv_id c) (msg_conversation_id m))
                 (ai_conversations db)
      then {| ai_conversations := ai_conversations db;
              ai_messages := ai_messages db ++ [m] |}
      else db
  end.

Definition fail (error : jsstring) (db : Database) : Response * Database :=
  ({| resp_status := 500; resp_body := BodyError error |}, db).

(** The handler, lines 164-284.  The insert of lines 215-224 names
    [ai_provider], which is not a column of [ai_conversations] (and its
    [user_id], declared NOT NULL, is a header the request need not have):
    the table refuses it, so [convError] is set and the handler throws
    whenever the request names no conversation. *)
Definition handler (env : Env) (db : Database) : Response * Database :=
  if jseqb (method (request env)) (js "OPTIONS") then
    ({| resp_status := 200; resp_body := BodyNull |}, db)
  else
    match json (request env) with
    | None => fail (js "Unexpected token in JSON") db
    | Some body =>
        let aiProvider := match aiProvider body with
                          | Some name => name
                          | None => js "openai"
                          end in
        if falsy (message body) || falsy (caseId body) then
          fail (js "Message and case ID are required") db
        else
          let message := or_empty (message body) in
          let caseId := or_empty (caseId body) in
          let ai := create (keys env) aiProvider in
          match generateEmbedding env ai message with
          | Throw e => fail (exn_message e) db
          | Ok queryEmbedding =>
              let similarDocs :=
                match search_similar_documents env caseId queryEmbedding with
                | Data docs => Some docs
                | Failed _ => None
                end in
              let context := match similarDocs with
                             | Some docs => map sd_content docs
                             | None => []
                             end in
              let sourcesCount := match similarDocs with
                                  | Some docs => length docs
                                  | None => 0
                                  end in
              match generateResponse env ai message context with
              | Throw e => fail (exn_message e) db
              | Ok aiResponse =>
                  let created :=
                    if falsy (conversationId body) then
                      Failed (js "Failed to create conversation: "
                              ++ conversation_insert_error env)
                    else Data (or_empty (conversationId body)) in
                  match created with
                  | Failed error => fail error db
                  | Data currentConversationId =>
                      let db2 :=
                        insert_message env SUserMessageInsert
                          {| msg_conversation_id := currentConversationId;
                             msg_role := js "user";
                             msg_content := message;
                             msg_metadata := None |} db in
                      let db3 :=
                        insert_message env SAssistantMessageInsert
                          {| msg_conversation_id := currentConversationId;
                             msg_role := js "assistant";
                             msg_content := aiResponse;
                             msg_metadata :=
                               Some {| sources_used := sourcesCount;
                                       meta_ai_provider := aiProvider;
                                       similarity_threshold := (7%N, 10%N) |} |}
                          db2 in
                      ({| resp_status := 200;
                          resp_body := BodySuccess aiResponse currentConversationId
                                                   sourcesCount aiProvider |},
                       db3)
                  end
              end
          end
    end.

End Handler.

Arguments request {Vector} e.
Arguments keys {Vector} e.
Arguments fetch_embedding {Vector} e _ _.
Arguments fetch_completion {Vector} e _ _ _.
Arguments search_similar_documents {Vector} e _ _.
Arguments fault {Vector} e _.
Arguments conversation_insert_error {Vector} e.
Arguments generateEmbedding {Vector} env p text.
Arguments generateResponse {Vector} env p prompt context.
Arguments insert_message {Vector} env s m db.
Arguments handler {Vector} env db.

(** [CHECK (role IN ('user', 'assistant', 'system'))] of [ai_messages]. *)
Definition role_check (role : jsstring) : bool :=
  jseqb role (js "user") || jseqb role (js "assistant")
  || jseqb role (js "system").

End RagHandler.

Module RagExtras.
Import JS Rag RagHandler JSFacts.

(** The provider name the handler works with: the request's, or "openai"
    when the request has none. *)
Definition requested_provider (body : Body) : jsstring :=
  match aiProvider body with
  | Some name => name
  | None => js "openai"
  end.

(** The passages and their number, as the handler takes them from the
    reply of the search: none when the search failed. *)
Definition context_of (found : reply (list SimilarDocument)) : list jsstring :=
  match found with
  | Data docs => map sd_content docs
  | Failed _ => []
  end.

Definition count_of (found : reply (list SimilarDocument)) : nat :=
  match found with
  | Data docs => length docs
  | Failed _ => 0
  end.

(** The rows the handler writes for an exchange. *)
Definition user_message (conversation message : jsstring) : Message :=
  {| msg_conversation_id := conversation;
     msg_role := js "user";
     msg_content := message;
     msg_metadata := None |}.

Definition assistant_message (conversation answer : jsstring) (sources : nat)
  (provider : jsstring) : Message :=
  {| msg_conversation_id := conversation;
     msg_role := js "assistant";
     msg_content := answer;
     msg_metadata := Some {| sources_used := sources;
                             meta_ai_provider := provider;
                             similarity_threshold := (7%N, 10%N) |} |}.

Section Facts.
Variable Vector : Type.

Lemma falsy_false (v : option jsstring) :
  falsy v = false -> exists s, v = Some s /\ s <> [] /\ or_empty v = s.
Proof.
  destruct v as [[|c r]|]; try discriminate.
  intros _. exists (c :: r). repeat split. discriminate.
Qed.

(** A success answer, taken apart: what the request held, what the
    services answered, and the database the handler leaves. *)
Lemma handler_success (env : Env Vector) (db : Database) (answer cid : jsstring)
  (n : nat) (p : jsstring) :
  fst (handler env db)
  = {| resp_status := 200; resp_body := BodySuccess answer cid n p |} ->
  exists body msg cse v,
    json (request env) = Some body
    /\ message body = Some msg /\ msg <> []
    /\ caseId body = Some cse /\ cse <> []
    /\ p = requested_provider body
    /\ generateEmbedding env (create (keys env) p) msg = Ok v
    /\ n = count_of (search_similar_documents env cse v)
    /\ generateResponse env (create (keys env) p) msg
         (context_of (search_similar_documents env cse v)) = Ok answer
    /\ falsy (conversationId body) = false
    /\ conversationId body = Some cid
    /\ snd (handler env db)
       = insert_message env SAssistantMessageInsert
           (assistant_message cid answer n p)
           (insert_message env SUserMessageInsert
              (user_message cid msg) db).
Proof.
  unfold handler, fail.
  destruct (jseqb (method (request env)) (js "OPTIONS")); [discriminate|].
  destruct (json (request env)) as [body|]; [|discriminate].
  destruct (falsy (message body)) eqn:Em; [discriminate|].
  destruct (falsy (caseId body)) eqn:Ec; [discriminate|].
  cbn [orb].
  destruct (falsy_false _ Em) as (msg & Hm & Hmne & Hmo).
  destruct (falsy_false _ Ec) as (cse & Hc & Hcne & Hco).
  rewrite Hmo, Hco. fold (requested_provider body).
  destruct (generateEmbedding env _ msg) as [v|e] eqn:Ev; [|discriminate].
  destruct (search_similar_documents env cse v) as [docs|failure] eqn:Es;
    cbv iota;
    (destruct (generateResponse env _ msg _) as [a|e] eqn:Ea; [|discriminate]);
    (destruct (falsy (conversationId body)) eqn:Ei; [discriminate|]);
    destruct (falsy_false _ Ei) as (i & Hi & _ & Hio);
    cbn [fst snd]; intros H; inversion H as [[Ha Hcid Hn Hp]];
    exists body, msg, cse, v; rewrite Es;
    cbn [context_of count_of];
    (repeat split; try assumption; try congruence);
    rewrite Hio; reflexivity.
Qed.

(** X17. A request answered with status 500 has changed nothing: every
    call that can fail comes before the first write, and a refused
    conversation insert writes nothing. *)
Theorem failed_request_changes_nothing (env : Env Vector) (db : Database) :
  resp_status (fst (handler env db)) = 500%N ->
  snd (handler env db) = db.
Proof.
  unfold handler, fail.
  repeat match goal with
         | |- context [match ?x with _ => _ end] => destruct x eqn:?
         end;
    cbn [fst snd resp_status]; try reflexivity; intros H; discriminate H.
Qed.

Lemma insert_message_stored (env : Env Vector) (s : site) (m : Message)
  (db : Database) :
  fault env s = None ->
  existsb (fun c => jseqb (conv_id c) (msg_conversation_id m))
          (ai_conversations db) = true ->
  insert_message env s m db
  = {| ai_conversations := ai_conversations db;
       ai_messages := ai_messages db ++ [m] |}.
Proof. intros Hf He. unfold insert_message. rewrite Hf, He. reflexivity. Qed.

Lemma insert_message_refused (env : Env Vector) (s : site) (m : Message)
  (db : Database) :
  existsb (fun c => jseqb (conv_id c) (msg_conversation_id m))
          (ai_conversations db) = false ->
  insert_message env s m db = db.
Proof.
  intros He. unfold insert_message. rewrite He.
  destruct (fault env s); reflexivity.
Qed.

(** X18. A request that names no conversation is never answered 200.
    The insert into [ai_conversations] that it needs is refused, so once
    the embedding and the completion have succeeded the answer is 500
    "Failed to create conversation: ..." with the database's message; and
    whatever the request and the services do, the answer is 500 and both
    tables are left as they were. *)
Theorem new_conversation_is_refused (env : Env Vector) (db : Database)
  (body : Body) :
  jseqb (method (request env)) (js "OPTIONS") = false ->
  json (request env) = Some body ->
  falsy (conversationId body) = true ->
  resp_status (fst (handler env db)) = 500%N
  /\ snd (handler env db) = db
  /\ forall msg cse v answer,
       message body = Some msg -> msg <> [] ->
       caseId body = Some cse -> cse <> [] ->
       generateEmbedding env (create (keys env) (requested_provider body)) msg
       = Ok v ->
       generateResponse env (create (keys env) (requested_provider body)) msg
         (context_of (search_similar_documents env cse v)) = Ok answer ->
       resp_body (fst (handler env db))
       = BodyError (js "Failed to create conversation: "
                    ++ conversation_insert_error env).
Proof.
  intros Hmethod Hbody Hnew.
  assert (H500 : resp_status (fst (handler env db)) = 500%N).
  { unfold handler, fail. rewrite Hmethod, Hbody, Hnew.
    repeat match goal with
           | |- context [match ?x with _ => _ end] => destruct x eqn:?
           end; reflexivity. }
  split; [exact H500|]. split.
  - unfold handler, fail. rewrite Hmethod, Hbody, Hnew.
    repeat match goal with
           | |- context [match ?x with _ => _ end] => destruct x eqn:?
           end; reflexivity.
  - intros msg cse v answer Hm Hmne Hc Hcne Hv Ha.
    unfold handler, fail. rewrite Hmethod, Hbody, Hnew, Hm, Hc.
    destruct msg as [|m0 msg']; [contradiction Hmne; reflexivity|].
    destruct cse as [|c0 cse']; [contradiction Hcne; reflexivity|].
    cbn [falsy orb or_empty]. fold (requested_provider body).
    rewrite Hv. unfold context_of in Ha.
    destruct (search_similar_documents env (c0 :: cse') v); cbv iota;
      rewrite Ha; reflexivity.
Qed.

(** X19. A request that names a conversation and is answered 200 opens
    none and returns that id.  If the conversation exists (and the two
    inserts go through) the two messages are appended to it; if there is
    no such conversation, the foreign key refuses both rows, the handler
    does not notice, and the database is left as it was although the
    answer is 200. *)
Theorem named_conversation_is_continued (env : Env Vector) (db : Database)
  (body : Body) (id answer cid : jsstring) (n : nat) (p : jsstring) :
  json (request env) = Some body ->
  conversationId body = Some id ->
  id <> [] ->
  fst (handler env db)
  = {| resp_status := 200; resp_body := BodySuccess answer cid n p |} ->
  cid = id
  /\ ai_conversations (snd (handler env db)) = ai_conversations db
  /\ (existsb (fun c => jseqb (conv_id c) id) (ai_conversations db) = true ->
      fault env SUserMessageInsert = None ->
      fault env SAssistantMessageInsert = None ->
      exists msg,
        message body = Some msg
        /\ ai_messages (snd (handler env db))
           = ai_messages db
             ++ [user_message id msg; assistant_message id answer n p])
  /\ (existsb (fun c => jseqb (conv_id c) id) (ai_conversations db) = false ->
      snd (handler env db) = db).
Proof.
  intros Hbody Hid Hne Hok.
  destruct (handler_success env db answer cid n p Hok)
    as (body' & msg & cse & v & Hb & Hm & _ & Hc & _ & _ & _ & _ & _ & Hconv).
  rewrite Hbody in Hb. inversion Hb; subst body'. clear Hb.
  destruct Hconv as (_ & Hcid & Hdb).
  assert (cid = id) by congruence. subst cid.
  split; [reflexivity|]. split; [|split].
  - rewrite Hdb. unfold insert_message.
    destruct (fault env SAssistantMessageInsert), (fault env SUserMessageInsert);
      cbn [msg_conversation_id user_message assistant_message];
      repeat (destruct (existsb _ _); cbn [ai_conversations]); reflexivity.
  - intros Hex Hu Ha. exists msg. split; [exact Hm|].
    rewrite Hdb.
    rewrite (insert_message_stored env SUserMessageInsert) at 1
      by (assumption || exact Hex).
    rewrite insert_message_stored by (assumption || exact Hex).
    cbn [ai_messages]. rewrite <- app_assoc. reflexivity.
  - intros Hex. rewrite Hdb.
    rewrite (insert_message_refused env SUserMessageInsert) by exact Hex.
    apply insert_message_refused. exact Hex.
Qed.

(** X20. A failing search does not fail the request: when the embedding
    and the completion succeed, the search error is only logged, the
    provider is asked with an empty context and the answer reports 0
    sources. *)
Theorem failed_search_is_tolerated (env : Env Vector) (db : Database)
  (body : Body) (msg cse id : jsstring) (v : Vector)
  (failure answer : jsstring) :
  jseqb (method (request env)) (js "OPTIONS") = false ->
  json (request env) = Some body ->
  message body = Some msg -> msg <> [] ->
  caseId body = Some cse -> cse <> [] ->
  conversationId body = Some id -> id <> [] ->
  generateEmbedding env (create (keys env) (requested_provider body)) msg = Ok v ->
  search_similar_documents env cse v = Failed failure ->
  generateResponse env (create (keys env) (requested_provider body)) msg []
  = Ok answer ->
  fst (handler env db)
  = {| resp_status := 200;
       resp_body := BodySuccess answer id 0 (requested_provider body) |}.
Proof.
  intros Hmethod Hbody Hm Hmne Hc Hcne Hi Hine Hv Hs Ha.
  unfold handler. rewrite Hmethod, Hbody, Hm, Hc, Hi.
  destruct msg as [|m0 msg']; [contradiction Hmne; reflexivity|].
  destruct cse as [|c0 cse']; [contradiction Hcne; reflexivity|].
  destruct id as [|i0 id']; [contradiction Hine; reflexivity|].
  cbn [falsy orb or_empty]. fold (requested_provider body).
  rewrite Hv, Hs. cbv iota. rewrite Ha. reflexivity.
Qed.

(** X21. A provider name the factory does not know is served by OpenAI but
    reported as asked: when the requested name is not "gemini" (in any
    letter case), the answer of a 200 response is what the OpenAI
    completion endpoint returned, while the [aiProvider] of the response
    is the requested name. *)
Theorem answer_comes_from_OpenAI_unless_gemini (env : Env Vector)
  (db : Database) (answer cid : jsstring) (n : nat) (p : jsstring) :
  toLowerCase p <> js "gemini" ->
  fst (handler env db)
  = {| resp_status := 200; resp_body := BodySuccess answer cid n p |} ->
  exists body msg context,
    json (request env) = Some body
    /\ p = requested_provider body
    /\ fetch_completion env (new_OpenAIProvider (keys env)) msg context
       = HttpOk (Ok answer).
Proof.
  intros Hp Hok.
  destruct (handler_success env db answer cid n p Hok)
    as (body & msg & cse & v & Hb & _ & _ & _ & _ & Hreq & _ & _ & Hans & _).
  exists body, msg, (context_of (search_similar_documents env cse v)).
  split; [exact Hb|]. split; [exact Hreq|].
  assert (Hcreate : create (keys env) p = new_OpenAIProvider (keys env)).
  { unfold create.
    destruct (jseqb (toLowerCase p) (js "openai")); [reflexivity|].
    apply jseqb_neq in Hp. rewrite Hp. reflexivity. }
  rewrite Hcreate in Hans. unfold generateResponse in Hans.
  destruct (fetch_completion env (new_OpenAIProvider (keys env)) msg
              (context_of (search_similar_documents env cse v)))
    as [picked | statusText | e]; try discriminate.
  rewrite Hans. reflexivity.
Qed.

End Facts.

(** *** The handler on a sample request *)

Definition sample_body (conversation provider : option jsstring) : Body :=
  {| message := Some (js "Jakie terminy obowiazuja w tej sprawie?");
     caseId := Some (js "case-1");
     conversationId := conversation;
     aiProvider := provider |}.

(** A request whose embedding succeeds, whose search fails, and which only
    the OpenAI completion endpoint answers. *)
Definition sample_env (conversation provider : option jsstring) : Env unit :=
  {| request := {| method := js "POST";
                   json := Some (sample_body conversation provider) |};
     keys := {| OPENAI_API_KEY := Some (js "sk-test"); GEMINI_API_KEY := None |};
     fetch_embedding := fun _ _ => HttpOk (Ok tt);
     fetch_completion :=
       fun p _ _ => match p with
                    | OpenAIProvider _ => HttpOk (Ok (js "Termin wynosi 14 dni."))
                    | GeminiProvider _ => HttpNotOk (js "Forbidden")
                    end;
     search_similar_documents := fun _ _ => Failed (js "function not found");
     fault := fun _ => None;
     conversation_insert_error :=
       js "Could not find the 'ai_provider' column of 'ai_conversations'" |}.

Definition empty_db : Database := {| ai_conversations := []; ai_messages := [] |}.

Lemma failed_request_changes_nothing_witness :
  fst (handler (sample_env None (Some (js "gemini"))) empty_db)
  = {| resp_status := 500;
       resp_body := BodyError (js "Gemini completion error: Forbidden") |}
  /\ snd (handler (sample_env None (Some (js "gemini"))) empty_db) = empty_db.
Proof.
  split; [reflexivity|].
  apply (failed_request_changes_nothing unit
           (sample_env None (Some (js "gemini"))) empty_db).
  reflexivity.
Defined.

Lemma new_conversation_is_refused_witness :
  fst (handler (sample_env None None) empty_db)
  = {| resp_status := 500;
       resp_body :=
         BodyError (js "Failed to create conversation: Could not find the 'ai_provider' column of 'ai_conversations'") |}
  /\ snd (handler (sample_env None None) empty_db) = empty_db.
Proof.
  split; [reflexivity|].
  destruct (new_conversation_is_refused unit (sample_env None None) empty_db
              (sample_body None None) eq_refl eq_refl eq_refl)
    as [_ [Hdb _]].
  exact Hdb.
Defined.

Lemma named_conversation_is_continued_witness :
  snd (handler (sample_env (Some (js "conv-gone")) None) empty_db) = empty_db.
Proof.
  apply (named_conversation_is_continued unit
           (sample_env (Some (js "conv-gone")) None) empty_db
           (sample_body (Some (js "conv-gone")) None) (js "conv-gone")
           (js "Termin wynosi 14 dni.") (js "conv-gone") 0 (js "openai")
           eq_refl eq_refl ltac:(discriminate) eq_refl).
  reflexivity.
Defined.

Lemma failed_search_is_tolerated_witness :
  fst (handler (sample_env (Some (js "conv-1")) None) empty_db)
  = {| resp_status := 200;
       resp_body := BodySuccess (js "Termin wynosi 14 dni.") (js "conv-1") 0
                                (js "openai") |}.
Proof.
  apply (failed_search_is_tolerated unit
           (sample_env (Some (js "conv-1")) None) empty_db
           (sample_body (Some (js "conv-1")) None)
           (js "Jakie terminy obowiazuja w tej sprawie?") (js "case-1")
           (js "conv-1") tt (js "function not found")
           (js "Termin wynosi 14 dni."));
    try reflexivity; discriminate.
Defined.

Lemma answer_comes_from_OpenAI_unless_gemini_witness :
  exists body msg context,
    json (request (sample_env (Some (js "conv-1")) (Some (js "Mistral"))))
    = Some body
    /\ js "Mistral" = requested_provider body
    /\ fetch_completion (sample_env (Some (js "conv-1")) (Some (js "Mistral")))
         (new_OpenAIProvider
            (keys (sample_env (Some (js "conv-1")) (Some (js "Mistral")))))
         msg context
       = HttpOk (Ok (js "Termin wynosi 14 dni.")).
Proof.
  apply (answer_comes_from_OpenAI_unless_gemini unit
           (sample_env (Some (js "conv-1")) (Some (js "Mistral"))) empty_db
           (js "Termin wynosi 14 dni.") (js "conv-1") 0 (js "Mistral")).
  - vm_compute. discriminate.
  - reflexivity.
Defined.

End RagExtras.

(** ** The upload flow (DocumentUploader.onDrop) *)
Module Uploader.
Import JS Processor.

(** A dropped file. *)
Record File := {
  name : jsstring;
  size : N;
  type : jsstring;
  bytes : list byte }.

(** Everything outside the flow: [Math.random()] as it prints, the error,
    if any, of the storage upload, and the message with which the
    database refuses the insert into [documents]. *)
Record Env := {
  random : jsstring;
  upload_error : option jsstring;
  insert_error : jsstring }.

(** What the user is told: nothing, or the toast "Upload failed" with the
    error's message. *)
Inductive Outcome :=
| Ignored
| UploadFailed (message : jsstring).

(** [s.split('.').pop()]: what follows the last '.', the whole text when
    there is none. *)
Definition last_segment (s : jsstring) : jsstring :=
  fold_left (fun segment c => if (c =? 46)%N then [] else segment ++ [c]) s [].

Definition filePath_of (env : Env) (file : File) : jsstring :=
  js "documents/" ++ (random env ++ js "." ++ last_segment (name file)).

(** [onDrop], lines 296-406: the first file is uploaded to the bucket
    (an upload to a path that holds an object is refused), then a row is
    inserted into [documents].  That insert gives [case_id], [title],
    [file_path], [file_size], [mime_type] and [status]; the table
    (create_documents_table.sql, lines 1-9, with [title] added later) has
    no [file_path], [file_size], [mime_type] or [status], and its
    [user_id], [name] and [path] are NOT NULL without a default.  So the
    insert is refused, [docError] is thrown, and lines 337-392 (the
    enqueueing, the success toast, the subscription) are not reached.
    Nothing that was written is taken back. *)
Definition onDrop (env : Env) (acceptedFiles : list File) (db : Database)
  : Outcome * Database :=
  match acceptedFiles with
  | [] => (Ignored, db)
  | file :: _ =>
      let filePath := filePath_of env file in
      match
        match upload_error env with
        | Some message => Some message
        | None =>
            match bucket_get (storage_documents db) filePath with
            | Some _ => Some (js "The resource already exists")
            | None => None
            end
        end
      with
      | Some message => (UploadFailed message, db)
      | None =>
          (UploadFailed (insert_error env),
           {| processing_queue := processing_queue db;
              documents := documents db;
              encryption_keys := encryption_keys db;
              document_encryption := document_encryption db;
              storage_documents :=
                storage_documents db ++ [(filePath, bytes file)];
              storage_encrypted_documents := storage_encrypted_documents db |})
      end
  end.

End Uploader.

Module UploaderFacts.
Import JS KMS Processor Uploader JSFacts ProcessorFacts.

Definition segment_step (segment : jsstring) (c : N) : jsstring :=
  if (c =? 46)%N then [] else segment ++ [c].

Lemma segment_no_dot (s segment : jsstring) :
  Forall (fun c => c <> 46%N) segment ->
  Forall (fun c => c <> 46%N) (fold_left segment_step s segment).
Proof.
  revert segment. induction s as [|c s IH]; intros segment H; [exact H|].
  cbn [fold_left]. apply IH. unfold segment_step.
  destruct (N.eqb_spec c 46); [constructor|].
  apply Forall_app. split; [exact H|]. constructor; [assumption|constructor].
Qed.

(** X23. The stored path is "documents/", the random number, a '.', and
    what follows the last '.' of the file's name: that extension holds no
    '.', it ends the name, and what stands before it in the name is
    nothing or ends in a '.'; so for a name without any '.' it is the
    whole name. *)
Theorem upload_path_extension (env : Env) (file : File) :
  exists extension front,
    filePath_of env file
    = js "documents/" ++ random env ++ js "." ++ extension
    /\ name file = front ++ extension
    /\ Forall (fun c => c <> 46%N) extension
    /\ (front = [] \/ exists front', front = front' ++ [46%N]).
Proof.
  exists (last_segment (name file)).
  assert (H : forall s segment,
             Forall (fun c => c <> 46%N) segment ->
             exists front,
               segment ++ s = front ++ fold_left segment_step s segment
               /\ (front = [] \/ exists front', front = front' ++ [46%N])).
  { induction s as [|c s IH]; intros segment Hs.
    - exists []. split; [cbn [fold_left app]; apply app_nil_r | left; reflexivity].
    - cbn [fold_left]. unfold segment_step at 2.
      destruct (N.eqb_spec c 46) as [->|Hc].
      + destruct (IH [] (Forall_nil _)) as [front [E Hf]].
        exists (segment ++ 46%N :: front). split.
        * rewrite <- app_assoc. cbn [app] in *. do 2 f_equal. exact E.
        * right. destruct Hf as [->|[front' ->]].
          -- exists segment. reflexivity.
          -- exists (segment ++ 46%N :: front').
             rewrite <- app_assoc. reflexivity.
      + destruct (IH (segment ++ [c])) as [front [E Hf]].
        { apply Forall_app. split; [exact Hs|].
          constructor; [assumption|constructor]. }
        exists front. split; [|exact Hf].
        rewrite <- E, <- app_assoc. reflexivity. }
  destruct (H (name file) [] (Forall_nil _)) as [front [E Hf]].
  exists front. split; [reflexivity|]. split; [exact E|]. split; [|exact Hf].
  apply (segment_no_dot (name file) []). constructor.
Qed.

(** What an upload never touches: the keys, the encryption metadata and
    the bucket of encrypted documents. *)
Definition processor_tables_kept (before after : Database) : Prop :=
  encryption_keys after = encryption_keys before
  /\ document_encryption after = document_encryption before
  /\ storage_encrypted_documents after = storage_encrypted_documents before.

(** X25. An upload that reports a failure takes nothing back: the queue
    and the documents are as before, and either nothing was written, or
    the file stays in the bucket, under a path that was free, without a
    document row and without a task; the message is then the one of the
    refused insert. *)
Theorem failed_upload_is_not_rolled_back (env : Env) (file : File)
  (others : list File) (db : Database) (message : jsstring) :
  fst (onDrop env (file :: others) db) = UploadFailed message ->
  let after := snd (onDrop env (file :: others) db) in
  processing_queue after = processing_queue db
  /\ processor_tables_kept db after
  /\ documents after = documents db
  /\ (storage_documents after = storage_documents db
      \/ (storage_documents after
          = storage_documents db ++ [(filePath_of env file, bytes file)]
          /\ bucket_get (storage_documents db) (filePath_of env file) = None
          /\ message = insert_error env)).
Proof.
  unfold onDrop.
  destruct (upload_error env) as [m|];
    [|destruct (bucket_get (storage_documents db) (filePath_of env file))
        eqn:Efree];
    cbn [fst snd]; intros H; inversion H; subst; cbv zeta;
    unfold processor_tables_kept;
    cbn [processing_queue documents storage_documents encryption_keys
         document_encryption storage_encrypted_documents].
  all: split; [reflexivity|].
  all: split; [split; [reflexivity|split; reflexivity]|].
  all: split; [reflexivity|].
  - left. reflexivity.
  - left. reflexivity.
  - right. repeat split.
Qed.

(** A dropped contract, and a database that holds nothing yet. *)
Definition contract : File :=
  {| name := js "contract.final.pdf";
     size := 10;
     type := js "application/pdf";
     bytes := Sample.plaintext |}.

Definition empty_db : Database :=
  {| processing_queue := [];
     documents := [];
     encryption_keys := [];
     document_encryption := [];
     storage_documents := [];
     storage_encrypted_documents := [] |}.

Definition upload_env : Uploader.Env :=
  {| random := js "0.42";
     upload_error := None;
     insert_error :=
       js "Could not find the 'file_path' column of 'documents'" |}.

Lemma failed_upload_is_not_rolled_back_witness :
  fst (onDrop upload_env [contract] empty_db)
  = UploadFailed (js "Could not find the 'file_path' column of 'documents'")
  /\ storage_documents (snd (onDrop upload_env [contract] empty_db))
     = [(js "documents/0.42.pdf", Sample.plaintext)]
  /\ documents (snd (onDrop upload_env [contract] empty_db)) = []
  /\ processing_queue (snd (onDrop upload_env [contract] empty_db)) = [].
Proof.
  split; [reflexivity|]. split; [reflexivity|].
  destruct (failed_upload_is_not_rolled_back upload_env contract []
              empty_db
              (js "Could not find the 'file_path' column of 'documents'")
              eq_refl)
    as [Hq [_ [Hd _]]].
  split; [exact Hd | exact Hq].
Defined.

End UploaderFacts.

(** ** The route guard (AuthGuard) *)
Module AuthGuard.
Import JS.

(** The signed-in user, as far as the guard looks at it: it only tests
    whether there is one. *)
Record User := { user_id : jsstring }.

Record Session := { session_user : User }.

(** What reaches the component: the promise of [getSession] resolving, or
    a call of the [onAuthStateChange] listener. *)
Inductive Event :=
| GetSession (session : option Session)
| AuthStateChange (event : jsstring) (session : option Session).

(** The two [useState] cells. *)
Record State := {
  user : option User;
  loading : bool }.

Definition initial : State := {| user := None; loading := true |}.

(** [session?.user ?? null] *)
Definition user_of (session : option Session) : option User :=
  match session with
  | Some s => Some (session_user s)
  | None => None
  end.

(** Lines 19-23 and 29-36: the new state and the paths navigated to. *)
Definition on_event (e : Event) (st : State) : State * list jsstring :=
  match e with
  | GetSession session =>
      ({| user := user_of session; loading := false |}, [])
  | AuthStateChange event session =>
      ({| user := user_of session; loading := false |},
       if jseqb event (js "SIGNED_OUT") then [js "/auth"] else [])
  end.

Inductive View :=
| Spinner
| Null
| Children.

(** Lines 43-72: what one render returns and where it navigates. *)
Definition render (st : State) (pathname : jsstring) : View * list jsstring :=
  if loading st then (Spinner, [])
  else
    match user st with
    | None =>
        if negb (jseqb pathname (js "/auth")) then (Null, [js "/auth"])
        else (Children, [])
    | Some _ =>
        if jseqb pathname (js "/auth") then (Null, [js "/"])
        else (Children, [])
    end.

(** [location.pathname] once the router has followed the navigations. *)
Definition follow (pathname : jsstring) (navigations : list jsstring)
  : jsstring :=
  last navigations pathname.

End AuthGuard.

Module AuthGuardFacts.
Import JS AuthGuard JSFacts.

(** X27. The guard renders its children only once loading is over, and
    then only where the visitor belongs: a signed-in user anywhere but on
    "/auth", a visitor without a user on "/auth" alone. *)
Theorem children_only_where_allowed (st : State) (pathname : jsstring) :
  fst (render st pathname) = Children ->
  loading st = false
  /\ (user st = None -> pathname = js "/auth")
  /\ (pathname = js "/auth" -> user st = None).
Proof.
  unfold render. destruct (loading st); [discriminate|].
  destruct (user st) as [u|];
    destruct (jseqb pathname (js "/auth")) eqn:E; cbn [negb fst];
    intros H; try discriminate H.
  - split; [reflexivity|]. split; [discriminate|].
    intros ->. rewrite jseqb_refl in E. discriminate E.
  - split; [reflexivity|]. split; [|reflexivity].
    intros _. apply jseqb_eq. exact E.
Qed.

Lemma redirect_settles (st : State) (pathname : jsstring) :
  loading st = false ->
  render st (follow pathname (snd (render st pathname))) = (Children, []).
Proof.
  intros Hl. unfold render. rewrite Hl.
  destruct (user st) as [u|];
    destruct (jseqb pathname (js "/auth")) eqn:E;
    cbn [negb snd follow last]; try rewrite E; reflexivity.
Qed.

(** The state after a sequence of events, the oldest first. *)
Definition after (events : list Event) (st : State) : State :=
  fold_left (fun st e => fst (on_event e st)) events st.

Lemma loading_is_over (events : list Event) (st : State) :
  events <> [] \/ loading st = false -> loading (after events st) = false.
Proof.
  revert st. induction events as [|e events IH]; intros st H.
  - destruct H as [H|H]; [contradiction H; reflexivity | exact H].
  - cbn [after fold_left]. apply IH. right. destruct e; reflexivity.
Qed.

(** X28. Before the first event the guard shows the spinner and goes
    nowhere. After any events, in whatever order [getSession] and the
    listener report, it redirects at most once: where a render navigates
    away, the render at the new path shows the children. *)
Theorem guard_redirects_at_most_once (e : Event) (events : list Event)
  (pathname : jsstring) :
  render initial pathname = (Spinner, [])
  /\ render (after (e :: events) initial)
       (follow pathname
          (snd (render (after (e :: events) initial) pathname)))
     = (Children, []).
Proof.
  split; [reflexivity|].
  apply redirect_settles. apply loading_is_over. left. discriminate.
Qed.

Lemma children_only_where_allowed_witness :
  fst (render {| user := Some {| user_id := js "user-1" |}; loading := false |}
         (js "/cases"))
  = Children
  /\ loading {| user := Some {| user_id := js "user-1" |}; loading := false |}
     = false.
Proof.
  split; [reflexivity|].
  destruct (children_only_where_allowed
              {| user := Some {| user_id := js "user-1" |}; loading := false |}
              (js "/cases") eq_refl) as [H _].
  exact H.
Defined.

End AuthGuardFacts.

(** ** Profiles and row level security (the SQL migrations) *)
Module Access.
Import JS.

Definition uuid := jsstring.

(** [CREATE TYPE user_role AS ENUM ('client', 'lawyer', 'admin')] *)
Inductive user_role := client | lawyer | admin.

Definition label (r : user_role) : jsstring :=
  match r with
  | client => js "client"
  | lawyer => js "lawyer"
  | admin => js "admin"
  end.

(** A statement either completes or raises. *)
Inductive outcome (A : Type) : Type :=
| Done (a : A)
| Raised (message : jsstring).
Arguments Done {A} a.
Arguments Raised {A} message.

(** [text::user_role]: the text has to be one of the labels, letter for
    letter. *)
Definition user_role_of_text (t : jsstring) : outcome user_role :=
  if jseqb t (js "client") then Done client
  else if jseqb t (js "lawyer") then Done lawyer
  else if jseqb t (js "admin") then Done admin
  else Raised (js "invalid input value for enum user_role: "
               ++ 34%N :: t ++ [34%N]).

(** The tables, without their [created_at] and [updated_at]. *)
Record Profile := {
  pr_id : uuid;
  pr_user_id : uuid;
  pr_first_name : option jsstring;
  pr_last_name : option jsstring;
  pr_law_firm_id : option uuid;
  pr_role : user_role }.

Record Client := {
  cl_id : uuid;
  cl_user_id : uuid;
  cl_law_firm_id : uuid }.

Record Case := {
  c_id : uuid;
  c_law_firm_id : uuid;
  c_client_id : uuid;
  c_name : jsstring;
  c_description : option jsstring }.

Record Database := {
  profiles : list Profile;
  clients : list Client;
  cases : list Case }.

(** The new row of [auth.users] as the trigger reads it: its [id], and
    what [raw_user_meta_data ->> key] gives for the three keys, NULL
    being [None]. *)
Record AuthUser := {
  u_id : uuid;
  meta_first_name : option jsstring;
  meta_last_name : option jsstring;
  meta_role : option jsstring }.

(** [handle_new_user]: one profile row for the new user. [law_firm_id] is
    not among the inserted columns and stays NULL; [profile_uuid] is what
    [gen_random_uuid()] gives the row. *)
Definition handle_new_user (profile_uuid : uuid) (NEW : AuthUser)
  (db : Database) : outcome Database :=
  match
    match meta_role NEW with
    | Some t => user_role_of_text t
    | None => Done client
    end
  with
  | Raised message => Raised message
  | Done role =>
      Done {| profiles :=
                profiles db ++
                [{| pr_id := profile_uuid;
                    pr_user_id := u_id NEW;
                    pr_first_name := meta_first_name NEW;
                    pr_last_name := meta_last_name NEW;
                    pr_law_firm_id := None;
                    pr_role := role |}];
              clients := clients db;
              cases := cases db |}
  end.

(** [get_user_law_firm]: [SELECT ... INTO] takes the first row found and
    leaves NULL when there is none. *)
Definition get_user_law_firm (p_user_id : option uuid) (db : Database)
  : option uuid :=
  match p_user_id with
  | None => None
  | Some u =>
      match filter (fun p => jseqb (pr_user_id p) u) (profiles db) with
      | [] => None
      | p :: _ => pr_law_firm_id p
      end
  end.

(** *** SQL's three truth values *)

Definition tri := option bool.

Definition sql_eq (a b : option uuid) : tri :=
  match a, b with
  | Some x, Some y => Some (jseqb x y)
  | _, _ => None
  end.

Definition sql_or (a b : tri) : tri :=
  match a, b with
  | Some true, _ | _, Some true => Some true
  | Some false, Some false => Some false
  | _, _ => None
  end.

(** [a IN (rows)] *)
Definition sql_in (a : option uuid) (rows : list (option uuid)) : tri :=
  fold_right (fun x found => sql_or (sql_eq a x) found) (Some false) rows.

(** A [WHERE], [USING] or [WITH CHECK] keeps a row only when its
    condition is true. *)
Definition holds (t : tri) : bool :=
  match t with
  | Some true => true
  | _ => false
  end.

(** The subquery all five policies share, for [auth.uid() = uid]: the
    cases of the user's law firm and the cases in which the user is the
    client. [cases] and [clients] are read whole, since the migrations
    enable row level security on neither; of [get_user_law_firm],
    SECURITY DEFINER, the same holds for [profiles]. *)
Definition user_cases (uid : option uuid) (db : Database)
  : list (option uuid) :=
  map (fun c => Some (c_id c))
    (filter
       (fun c =>
          holds
            (sql_or
               (sql_eq (Some (c_law_firm_id c)) (get_user_law_firm uid db))
               (sql_in (Some (c_client_id c))
                  (map (fun cl => Some (cl_id cl))
                     (filter
                        (fun cl => holds (sql_eq (Some (cl_user_id cl)) uid))
                        (clients db))))))
       (cases db)).

(** "Users can view conversations in their cases" and "Users can create
    conversations in their cases", on a row with the given [case_id]. *)
Definition conversation_policy (uid : option uuid) (db : Database)
  (case_id : option uuid) : bool :=
  holds (sql_in case_id (user_cases uid db)).

(** The user row that the sign-up form of [Auth] leads to: its metadata
    are [first_name], [last_name] and the role "lawyer". *)
Definition signUp_user (id firstName lastName : jsstring) : AuthUser :=
  {| u_id := id;
     meta_first_name := Some firstName;
     meta_last_name := Some lastName;
     meta_role := Some (js "lawyer") |}.

End Access.

Module AccessFacts.
Import JS Access JSFacts.

Lemma user_role_of_text_done (t : jsstring) (r : user_role) :
  user_role_of_text t = Done r -> t = label r.
Proof.
  unfold user_role_of_text.
  destruct (jseqb t (js "client")) eqn:E1;
    [intros H; inversion H; apply jseqb_eq; exact E1|].
  destruct (jseqb t (js "lawyer")) eqn:E2;
    [intros H; inversion H; apply jseqb_eq; exact E2|].
  destruct (jseqb t (js "admin")) eqn:E3;
    [intros H; inversion H; apply jseqb_eq; exact E3|].
  discriminate.
Qed.

Lemma user_role_of_text_raised (t message : jsstring) :
  user_role_of_text t = Raised message -> forall r, t <> label r.
Proof.
  unfold user_role_of_text.
  destruct (jseqb t (js "client")) eqn:E1; [discriminate|].
  destruct (jseqb t (js "lawyer")) eqn:E2; [discriminate|].
  destruct (jseqb t (js "admin")) eqn:E3; [discriminate|].
  intros _ r. apply jseqb_neq. destruct r; assumption.
Qed.

Lemma no_profile_no_firm (u : uuid) (rows : list Profile) (p : Profile) :
  (forall q, In q rows -> pr_user_id q <> u) ->
  pr_user_id p = u ->
  filter (fun q => jseqb (pr_user_id q) u) (rows ++ [p]) = [p].
Proof.
  intros Hfresh Hp. rewrite filter_app.
  replace (filter (fun q => jseqb (pr_user_id q) u) rows) with (@nil Profile).
  - cbn [filter app]. rewrite Hp, jseqb_refl. reflexivity.
  - symmetry. induction rows as [|q rows IH]; [reflexivity|].
    cbn [filter].
    destruct (jseqb (pr_user_id q) u) eqn:E.
    + apply jseqb_eq in E. exfalso. apply (Hfresh q); [left; reflexivity|exact E].
    + apply IH. intros q' Hq'. apply Hfresh. right. exact Hq'.
Qed.

(** X29. For a new user, one no profile row refers to yet, the trigger
    either raises, which happens exactly when the metadata name a role
    that is none of 'client', 'lawyer', 'admin', or adds one profile with
    that role ('client' when none is named) and without a law firm, so
    that [get_user_law_firm] is NULL for the user and the comparison of
    the policies with a case's law firm is NULL for every case. *)
Theorem new_user_has_no_law_firm (profile_uuid : uuid) (NEW : AuthUser)
  (db : Database) :
  (forall p, In p (profiles db) -> pr_user_id p <> u_id NEW) ->
  match handle_new_user profile_uuid NEW db with
  | Raised _ =>
      exists t, meta_role NEW = Some t /\ forall r, t <> label r
  | Done db' =>
      exists role,
        profiles db'
        = profiles db ++
          [{| pr_id := profile_uuid;
              pr_user_id := u_id NEW;
              pr_first_name := meta_first_name NEW;
              pr_last_name := meta_last_name NEW;
              pr_law_firm_id := None;
              pr_role := role |}]
        /\ meta_role NEW = match meta_role NEW with
                           | Some _ => Some (label role)
                           | None => None
                           end
        /\ (meta_role NEW = None -> role = client)
        /\ get_user_law_firm (Some (u_id NEW)) db' = None
        /\ forall c, sql_eq (Some (c_law_firm_id c))
                       (get_user_law_firm (Some (u_id NEW)) db') = None
  end.
Proof.
  intros Hfresh. unfold handle_new_user.
  destruct (meta_role NEW) as [t|] eqn:Hrole.
  - destruct (user_role_of_text t) as [role|message] eqn:Hcast.
    + assert (Hfirm : get_user_law_firm (Some (u_id NEW))
                        {| profiles :=
                             profiles db ++
                             [{| pr_id := profile_uuid;
                                 pr_user_id := u_id NEW;
                                 pr_first_name := meta_first_name NEW;
                                 pr_last_name := meta_last_name NEW;
                                 pr_law_firm_id := None;
                                 pr_role := role |}];
                           clients := clients db;
                           cases := cases db |} = None).
      { unfold get_user_law_firm. cbn [profiles].
        rewrite no_profile_no_firm; [reflexivity | exact Hfresh | reflexivity]. }
      exists role. split; [reflexivity|].
      split; [rewrite (user_role_of_text_done t role Hcast); reflexivity|].
      split; [discriminate|]. split; [exact Hfirm|].
      intros c. rewrite Hfirm. reflexivity.
    + exists t. split; [reflexivity|].
      exact (user_role_of_text_raised t message Hcast).
  - assert (Hfirm : get_user_law_firm (Some (u_id NEW))
                      {| profiles :=
                           profiles db ++
                           [{| pr_id := profile_uuid;
                               pr_user_id := u_id NEW;
                               pr_first_name := meta_first_name NEW;
                               pr_last_name := meta_last_name NEW;
                               pr_law_firm_id := None;
                               pr_role := client |}];
                         clients := clients db;
                         cases := cases db |} = None).
    { unfold get_user_law_firm. cbn [profiles].
      rewrite no_profile_no_firm; [reflexivity | exact Hfresh | reflexivity]. }
    exists client. split; [reflexivity|]. split; [reflexivity|].
    split; [reflexivity|]. split; [exact Hfirm|].
    intros c. rewrite Hfirm. reflexivity.
Qed.

Lemma sql_or_true (a b : tri) :
  sql_or a b = Some true <-> a = Some true \/ b = Some true.
Proof.
  destruct a as [[|]|], b as [[|]|]; cbn [sql_or]; split;
    try (intros [H|H]; discriminate H);
    try discriminate; try (intros _; left; reflexivity);
    try (intros _; right; reflexivity); try reflexivity.
Qed.

Lemma sql_eq_true (a b : option uuid) :
  sql_eq a b = Some true <-> exists x, a = Some x /\ b = Some x.
Proof.
  destruct a as [x|], b as [y|]; cbn [sql_eq]; split.
  - intros H. inversion H as [E]. apply jseqb_eq in E. subst y.
    exists x. split; reflexivity.
  - intros [z [Ha Hb]]. inversion Ha. inversion Hb. subst.
    rewrite jseqb_refl. reflexivity.
  - discriminate.
  - intros [z [_ H]]. discriminate H.
  - discriminate.
  - intros [z [H _]]. discriminate H.
  - discriminate.
  - intros [z [H _]]. discriminate H.
Qed.

Lemma holds_true (t : tri) : holds t = true <-> t = Some true.
Proof.
  destruct t as [[|]|]; cbn [holds]; split; try discriminate; reflexivity.
Qed.

Lemma sql_in_true (a : uuid) (rows : list (option uuid)) :
  sql_in (Some a) rows = Some true <-> In (Some a) rows.
Proof.
  induction rows as [|x rows IH]; cbn [sql_in fold_right In].
  - split; [discriminate | contradiction].
  - fold (sql_in (Some a) rows). rewrite sql_or_true, IH, sql_eq_true.
    split.
    + intros [[z [Ha Hx]]|H]; [left | right; exact H].
      inversion Ha. subst. reflexivity.
    + intros [H|H]; [left | right; exact H].
      exists a. split; [reflexivity | exact H].
Qed.

(** X30. The policies on conversations admit a row exactly when its case
    exists and either belongs to the law firm of the user's first profile
    or has the user as its client. A NULL anywhere, be it the user id of
    an anonymous caller or the law firm of a profile without one, admits
    nothing. *)
Theorem conversation_policy_meaning (uid : option uuid) (db : Database)
  (case_id : uuid) :
  (conversation_policy uid db (Some case_id) = true ->
   exists u c,
     uid = Some u /\ In c (cases db) /\ c_id c = case_id
     /\ (get_user_law_firm uid db = Some (c_law_firm_id c)
         \/ exists cl, In cl (clients db) /\ cl_user_id cl = u
                       /\ cl_id cl = c_client_id c))
  /\ (forall u c,
        uid = Some u -> In c (cases db) -> c_id c = case_id ->
        (get_user_law_firm uid db = Some (c_law_firm_id c)
         \/ exists cl, In cl (clients db) /\ cl_user_id cl = u
                       /\ cl_id cl = c_client_id c) ->
        conversation_policy uid db (Some case_id) = true)
  /\ conversation_policy None db (Some case_id) = false.
Proof.
  assert (Hclient : forall u c,
             sql_in (Some (c_client_id c))
               (map (fun cl => Some (cl_id cl))
                  (filter
                     (fun cl => holds (sql_eq (Some (cl_user_id cl)) u))
                     (clients db))) = Some true
             <-> exists v cl, u = Some v /\ In cl (clients db)
                              /\ cl_user_id cl = v
                              /\ cl_id cl = c_client_id c).
  { intros u c. rewrite sql_in_true, in_map_iff. split.
    - intros [cl [Hid Hin]]. apply filter_In in Hin. destruct Hin as [Hin Hh].
      apply holds_true, sql_eq_true in Hh. destruct Hh as [v [Hv Hu]].
      inversion Hv. inversion Hid. exists v, cl. subst v. repeat split; assumption.
    - intros [v [cl [-> [Hin [Hv Hid]]]]]. exists cl.
      split; [rewrite Hid; reflexivity|].
      apply filter_In. split; [exact Hin|].
      apply holds_true, sql_eq_true. exists v. rewrite Hv. split; reflexivity. }
  assert (Hfirm : forall c,
             sql_eq (Some (c_law_firm_id c)) (get_user_law_firm uid db)
             = Some true
             <-> get_user_law_firm uid db = Some (c_law_firm_id c)).
  { intros c. rewrite sql_eq_true. split.
    - intros [x [Hx ->]]. inversion Hx. reflexivity.
    - intros ->. exists (c_law_firm_id c). split; reflexivity. }
  split; [|split].
  - unfold conversation_policy. intros H.
    apply holds_true, sql_in_true in H. unfold user_cases in H.
    apply in_map_iff in H. destruct H as [c [Hid Hin]].
    apply filter_In in Hin. destruct Hin as [Hin Hh].
    apply holds_true, sql_or_true in Hh. inversion Hid as [Hid'].
    destruct Hh as [Hh|Hh].
    + apply Hfirm in Hh. destruct uid as [u|]; [|discriminate Hh].
      exists u, c. repeat split; try assumption. left. exact Hh.
    + apply Hclient in Hh. destruct Hh as [v [cl [-> [Hcl [Hv Hc]]]]].
      exists v, c. repeat split; try assumption. right.
      exists cl. repeat split; assumption.
  - intros u c -> Hin Hid Hwhy. unfold conversation_policy.
    apply holds_true, sql_in_true. unfold user_cases.
    apply in_map_iff. exists c. split; [rewrite Hid; reflexivity|].
    apply filter_In. split; [exact Hin|].
    apply holds_true, sql_or_true. destruct Hwhy as [Hf|[cl [Hcl [Hv Hc]]]].
    + left. apply Hfirm. exact Hf.
    + right. apply Hclient. exists u, cl. repeat split; assumption.
  - destruct (conversation_policy None db (Some case_id)) eqn:E; [|reflexivity].
    exfalso. unfold conversation_policy in E.
    apply holds_true, sql_in_true in E. unfold user_cases in E.
    apply in_map_iff in E. destruct E as [c [_ Hin]].
    apply filter_In in Hin. destruct Hin as [_ Hh].
    apply holds_true, sql_or_true in Hh. destruct Hh as [Hh|Hh].
    + cbn [get_user_law_firm sql_eq] in Hh. discriminate Hh.
    + apply Hclient in Hh. destruct Hh as [v [cl [Hv _]]]. discriminate Hv.
Qed.

(** A registration through the form, into a database with one case of a
    law firm. *)
Definition one_case : Database :=
  {| profiles := [];
     clients := [];
     cases := [{| c_id := js "case-1";
                  c_law_firm_id := js "firm-1";
                  c_client_id := js "client-1";
                  c_name := js "Kowalski";
                  c_description := None |}] |}.

Lemma new_user_has_no_law_firm_witness :
  (forall p, In p (profiles one_case) ->
             pr_user_id p <> u_id (signUp_user (js "user-1") (js "Anna") (js "Nowak")))
  /\ match handle_new_user (js "profile-1")
             (signUp_user (js "user-1") (js "Anna") (js "Nowak")) one_case
     with
     | Raised _ =>
         exists t, meta_role (signUp_user (js "user-1") (js "Anna") (js "Nowak"))
                   = Some t /\ forall r, t <> label r
     | Done db' =>
         exists role,
           profiles db'
           = profiles one_case ++
             [{| pr_id := js "profile-1";
                 pr_user_id := u_id (signUp_user (js "user-1") (js "Anna") (js "Nowak"));
                 pr_first_name := meta_first_name (signUp_user (js "user-1") (js "Anna") (js "Nowak"));
                 pr_last_name := meta_last_name (signUp_user (js "user-1") (js "Anna") (js "Nowak"));
                 pr_law_firm_id := None;
                 pr_role := role |}]
           /\ meta_role (signUp_user (js "user-1") (js "Anna") (js "Nowak"))
              = match meta_role (signUp_user (js "user-1") (js "Anna") (js "Nowak")) with
                | Some _ => Some (label role)
                | None => None
                end
           /\ (meta_role (signUp_user (js "user-1") (js "Anna") (js "Nowak")) = None
               -> role = client)
           /\ get_user_law_firm
                (Some (u_id (signUp_user (js "user-1") (js "Anna") (js "Nowak")))) db'
              = None
           /\ forall c, sql_eq (Some (c_law_firm_id c))
                          (get_user_law_firm
                             (Some (u_id (signUp_user (js "user-1") (js "Anna") (js "Nowak"))))
                             db') = None
     end.
Proof.
  assert (H : forall p, In p (profiles one_case) ->
                        pr_user_id p <> u_id (signUp_user (js "user-1") (js "Anna") (js "Nowak")))
    by (intros p []).
  split; [exact H|].
  exact (new_user_has_no_law_firm (js "profile-1")
           (signUp_user (js "user-1") (js "Anna") (js "Nowak")) one_case H).
Defined.

End AccessFacts.
